(** * et-api: the enforcement-tracker scraper, its normalisers and its store

    A shallow embedding of [scraper_playwright.py] and [db.py].

    Python [str] values are sequences of Unicode code points ([pystr]);
    the SQLite table is a finite map from [etid] to a row; the browser is
    an interface ([Browser]) whose operations are the Playwright calls the
    scraper makes. *)

From Stdlib Require Import ZArith NArith List String Ascii Bool Lia.
From stdpp Require Import base option list gmap sets strings.

Set Default Proof Using "Type".
Local Open Scope N_scope.

(* ===================================================================== *)
(** ** Python strings *)
(* ===================================================================== *)

Module PyStr.

(** A Python [str]: a sequence of code points. *)
Definition pystr := list N.

(** UTF-8 decoding of a source literal, so that examples can be written as
    text: [py "10.000 €"]. *)
Fixpoint utf8_decode (pending : nat) (acc : N) (bs : list N) : list N :=
  match bs with
  | [] => []
  | b :: rest =>
      match pending with
      | O =>
          if b <? 128 then b :: utf8_decode 0 0 rest
          else if b <? 224 then utf8_decode 1 (b - 192) rest
          else if b <? 240 then utf8_decode 2 (b - 224) rest
          else utf8_decode 3 (b - 240) rest
      | S O => (acc * 64 + (b - 128)) :: utf8_decode 0 0 rest
      | S p => utf8_decode p (acc * 64 + (b - 128)) rest
      end
  end.

Definition py (s : string) : pystr :=
  utf8_decode 0 0 (map N_of_ascii (list_ascii_of_string s)).

(** [str.isspace] for one code point (also [\s] of [re] on [str]). *)
Definition is_space (c : N) : bool :=
  ((9 <=? c) && (c <=? 13)) || ((28 <=? c) && (c <=? 32))
  || (c =? 133) || (c =? 160) || (c =? 5760)
  || ((8192 <=? c) && (c <=? 8202))
  || (c =? 8232) || (c =? 8233) || (c =? 8239) || (c =? 8287) || (c =? 12288).

(** First code point of every run of ten decimal digits (category Nd). *)
Definition nd_starts : list N :=
  [48; 1632; 1776; 1984; 2406; 2534; 2662; 2790; 2918; 3046; 3174; 3302;
   3430; 3558; 3664; 3792; 3872; 4160; 4240; 6112; 6160; 6470; 6608; 6784;
   6800; 6992; 7088; 7232; 7248; 42528; 43216; 43264; 43472; 43504; 43600;
   44016; 65296; 66720; 68912; 69734; 69872; 69942; 70096; 70384; 70736;
   70864; 71248; 71360; 71472; 71904; 72016; 72784; 73040; 73120; 92768;
   92864; 93008; 120782; 120792; 120802; 120812; 120822; 123200; 123632;
   125264; 130032].

(** Decimal value of a code point, if it is a decimal digit. *)
Definition digit_value (c : N) : option N :=
  match List.find (fun s => (s <=? c) && (c <? s + 10)) nd_starts with
  | Some s => Some (c - s)
  | None => None
  end.

(** [\d] of [re] on [str]. *)
Definition is_digit (c : N) : bool :=
  match digit_value c with Some _ => true | None => false end.

Definition ascii_digit (c : N) : bool := (48 <=? c) && (c <=? 57).

Definition str_eqb (a b : pystr) : bool := bool_decide (a = b).

(** [s.startswith(p)] *)
Fixpoint startswith (p s : pystr) : bool :=
  match p, s with
  | [], _ => true
  | _ :: _, [] => false
  | a :: p', b :: s' => (a =? b) && startswith p' s'
  end.

(** [p in s] *)
Fixpoint contains (p s : pystr) : bool :=
  startswith p s || match s with [] => false | _ :: s' => contains p s' end.

(** [s.lstrip()], [s.rstrip()], [s.strip()] *)
Fixpoint lstrip_by (f : N -> bool) (s : pystr) : pystr :=
  match s with
  | [] => []
  | c :: s' => if f c then lstrip_by f s' else s
  end.

Definition rstrip_by (f : N -> bool) (s : pystr) : pystr :=
  rev (lstrip_by f (rev s)).

Definition strip_by (f : N -> bool) (s : pystr) : pystr :=
  rstrip_by f (lstrip_by f s).

Definition strip : pystr -> pystr := strip_by is_space.

(** [s.strip(chars)] and its one-sided versions. *)
Definition in_chars (chars : pystr) (c : N) : bool := existsb (N.eqb c) chars.
Definition lstrip_chars (chars : pystr) : pystr -> pystr := lstrip_by (in_chars chars).
Definition rstrip_chars (chars : pystr) : pystr -> pystr := rstrip_by (in_chars chars).
Definition strip_chars (chars : pystr) : pystr -> pystr := strip_by (in_chars chars).

(** [s.replace(old, new)] for a non-empty [old]: leftmost non-overlapping
    occurrences. [skip] counts the code points of a matched occurrence that
    are still to be dropped. *)
Fixpoint replace_from (skip : nat) (old new s : pystr) : pystr :=
  match s with
  | [] => []
  | c :: s' =>
      match skip with
      | S k => replace_from k old new s'
      | O =>
          if startswith old s
          then new ++ replace_from (length old - 1) old new s'
          else c :: replace_from 0 old new s'
      end
  end.

Definition replace (old new s : pystr) : pystr := replace_from 0 old new s.

(** [re.sub(r"\s+", " ", s)]: every maximal run of whitespace becomes one
    space. [in_run] tells that the previous code point was whitespace. *)
Fixpoint collapse_ws_from (in_run : bool) (s : pystr) : pystr :=
  match s with
  | [] => []
  | c :: s' =>
      if is_space c
      then (if in_run then [] else [32]) ++ collapse_ws_from true s'
      else c :: collapse_ws_from false s'
  end.

Definition collapse_ws : pystr -> pystr := collapse_ws_from false.

(** ASCII lower-casing; Python's [str.lower] agrees with it on ASCII text. *)
Definition ascii_lower_char (c : N) : N :=
  if (65 <=? c) && (c <=? 90) then c + 32 else c.
Definition ascii_lower (s : pystr) : pystr := map ascii_lower_char s.

(** Truthiness of a [str] and of an [Optional[str]]. *)
Definition truthy (s : pystr) : bool :=
  match s with [] => false | _ => true end.
Definition truthy_opt (o : option pystr) : bool :=
  match o with Some s => truthy s | None => false end.

End PyStr.
Export PyStr.

(* ===================================================================== *)
(** ** [float(str)] *)
(* ===================================================================== *)

Module PyFloat.

(** The value [float] reads from a text, before it is rounded to the
    nearest binary64: not-a-number, an infinity, or the decimal
    [(-1)^neg * mant * 10^exp10]. Rounding keeps the sign, so equal
    decimals give equal floats. *)
Inductive pyfloat :=
| FNan
| FInf (neg : bool)
| FDec (neg : bool) (mant : N) (exp10 : Z).

(** [x >= 0.0]: false for NaN, true for both zeros. *)
Definition float_nonneg (x : pyfloat) : bool :=
  match x with
  | FNan => false
  | FInf neg => negb neg
  | FDec neg m _ => negb neg || (m =? 0)
  end.

Definition signed (neg : bool) (m : N) : Z :=
  if neg then (- Z.of_N m)%Z else Z.of_N m.

(** [x == y] on the decimal values. *)
Definition float_eqb (x y : pyfloat) : bool :=
  match x, y with
  | FInf a, FInf b => Bool.eqb a b
  | FDec n1 m1 e1, FDec n2 m2 e2 =>
      let e := Z.min e1 e2 in
      (signed n1 m1 * 10 ^ (e1 - e) =? signed n2 m2 * 10 ^ (e2 - e))%Z
  | _, _ => false
  end.

(** The text as [float] sees it: ASCII stays, other whitespace becomes a
    space, other decimal digits become ASCII digits, and the text is cut
    after the first code point that is none of these, replaced by [?]. *)
Fixpoint to_ascii (s : pystr) : pystr :=
  match s with
  | [] => []
  | c :: s' =>
      if c <? 127 then c :: to_ascii s'
      else if is_space c then 32 :: to_ascii s'
      else match digit_value c with
           | Some d => (48 + d) :: to_ascii s'
           | None => [63]
           end
  end.

(** Underscores may only stand between two digits; they are dropped.
    [prev] is the previous code point (0 at the start). *)
Fixpoint drop_underscores (prev : N) (s : pystr) : option pystr :=
  match s with
  | [] => if prev =? 95 then None else Some []
  | c :: s' =>
      if c =? 95
      then (if ascii_digit prev then drop_underscores c s' else None)
      else if (prev =? 95) && negb (ascii_digit c) then None
      else match drop_underscores c s' with
           | Some r => Some (c :: r)
           | None => None
           end
  end.

(** C whitespace: tab, newline, vertical tab, form feed, return, space. *)
Definition c_space (c : N) : bool := ((9 <=? c) && (c <=? 13)) || (c =? 32).

Fixpoint span_digits (s : pystr) : list N * pystr :=
  match s with
  | [] => ([], [])
  | c :: s' =>
      if ascii_digit c
      then let '(ds, r) := span_digits s' in ((c - 48) :: ds, r)
      else ([], s)
  end.

Definition digits_value (ds : list N) : N :=
  fold_left (fun acc d => 10 * acc + d) ds 0.

Definition take_sign (s : pystr) : bool * pystr :=
  match s with
  | c :: s' =>
      if c =? 45 then (true, s')
      else if c =? 43 then (false, s')
      else (false, s)
  | [] => (false, s)
  end.

(** [sign? (digits (. digits?)? | . digits) ((e|E) sign? digits)?] *)
Definition parse_decimal (s : pystr) : option pyfloat :=
  let '(neg, s1) := take_sign s in
  let '(ip, s2) := span_digits s1 in
  let '(fp, s3) :=
    match s2 with
    | c :: t => if c =? 46 then span_digits t else ([], s2)
    | [] => ([], s2)
    end in
  match ip ++ fp with
  | [] => None
  | ds =>
      let frac := Z.of_nat (length fp) in
      match s3 with
      | [] => Some (FDec neg (digits_value ds) (- frac))
      | c :: t =>
          if (c =? 101) || (c =? 69)
          then let '(eneg, t1) := take_sign t in
               let '(ed, t2) := span_digits t1 in
               match ed, t2 with
               | _ :: _, [] =>
                   Some (FDec neg (digits_value ds)
                              (signed eneg (digits_value ed) - frac))
               | _, _ => None
               end
          else None
      end
  end.

(** [sign? (inf | infinity | nan)], in any letter case. *)
Definition parse_inf_or_nan (s : pystr) : option pyfloat :=
  let '(neg, s1) := take_sign s in
  let w := ascii_lower s1 in
  if str_eqb w (py "inf") || str_eqb w (py "infinity") then Some (FInf neg)
  else if str_eqb w (py "nan") then Some FNan
  else None.

(** [float(s)] for a [str]; [None] stands for [ValueError]. *)
Definition float_of_str (s : pystr) : option pyfloat :=
  match drop_underscores 0 (to_ascii s) with
  | None => None
  | Some a =>
      let t := strip_by c_space a in
      match parse_decimal t with
      | Some x => Some x
      | None => parse_inf_or_nan t
      end
  end.

End PyFloat.
Export PyFloat.

(* ===================================================================== *)
(** ** Parsing helpers of the scraper *)
(* ===================================================================== *)

Definition BASE_URL : pystr := py "https://www.enforcementtracker.com".

Definition EURO : N := 8364.
Definition NBSP : N := 160.

(** [re.sub(r"(?<=\d)[.,](?=\d{3}(\D|$))", "", txt)]: a dot or comma that
    follows a digit and is followed by exactly three digits and then no
    fourth one is deleted. The match is one code point long and both
    assertions read the unchanged text, so [prev] is the code point before
    the current one in the input. *)
Definition three_digits_then_stop (s : pystr) : bool :=
  match s with
  | a :: b :: c :: rest =>
      is_digit a && is_digit b && is_digit c &&
      match rest with
      | [] => true
      | d :: _ => negb (is_digit d)
      end
  | _ => false
  end.

Fixpoint drop_thousands (prev : option N) (s : pystr) : pystr :=
  match s with
  | [] => []
  | c :: s' =>
      if ((c =? 46) || (c =? 44))
         && match prev with Some p => is_digit p | None => false end
         && three_digits_then_stop s'
      then drop_thousands (Some c) s'
      else c :: drop_thousands (Some c) s'
  end.

Definition parse_amount_eur (raw : pystr) : option pyfloat :=
  if negb (truthy raw) then None
  else
    let txt := strip raw in
    let txt := replace [32] [] (replace [NBSP] [] (replace [EURO] [] txt)) in
    let txt := replace [44] [46] txt in
    let txt := drop_thousands None txt in
    float_of_str txt.

Definition absolute_url (href : option pystr) : option pystr :=
  if negb (truthy_opt href) then None
  else
    let href := strip (default [] href) in
    if startswith (py "http") href then Some href
    else Some (rstrip_chars [47] BASE_URL ++ [47] ++ lstrip_chars [47] href).


(* ===================================================================== *)
(** ** Exceptions *)
(* ===================================================================== *)

Inductive exn :=
| PlaywrightError   (* a Playwright call on an element that is not there *)
| SqliteError.      (* an sqlite3 call that fails *)

(** What a call yields: a value, an exception, or no answer within the
    steps the model was given. *)
Inductive outcome (A : Type) :=
| Ok (a : A)
| Raise (e : exn)
| OutOfFuel.
Arguments Ok {A} a.
Arguments Raise {A} e.
Arguments OutOfFuel {A}.

#[export] Instance outcome_ret : MRet outcome := fun A a => Ok a.
#[export] Instance outcome_bind : MBind outcome := fun A B f m =>
  match m with
  | Ok a => f a
  | Raise e => Raise e
  | OutOfFuel => OutOfFuel
  end.

(* ===================================================================== *)
(** ** The store: table [fines] and the upsert *)
(* ===================================================================== *)

Module Db.

(** One dict of a batch, as [upsert_rows] reads it: [r["etid"]], ... *)
Record row := {
  etid : pystr;
  country : option pystr;
  authority : option pystr;
  decision_date : option pystr;
  amount_eur : option pyfloat;
  controller_or_processor : option pystr;
  quoted_articles : option pystr;
  type_ : option pystr;
  summary : option pystr;
  source_url : option pystr;
  direct_url : option pystr;
}.

(** One row of table [fines] without its primary key; [None] is NULL. *)
Record fine := {
  col_country : option pystr;
  col_authority : option pystr;
  col_decision_date : option pystr;
  col_amount_eur : option pyfloat;
  col_controller_or_processor : option pystr;
  col_quoted_articles : option pystr;
  col_type : option pystr;
  col_summary : option pystr;
  col_source_url : option pystr;
  col_direct_url : option pystr;
  col_scraped_at : option pystr;
}.

(** The table, keyed by [etid]. *)
Abbreviation table := (gmap pystr fine).

(** SQL [COALESCE(a, b)]: the first argument that is not NULL. *)
Definition COALESCE {A} (a b : option A) : option A :=
  match a with
  | Some _ => a
  | None => b
  end.

(** sqlite3 binds a NaN as NULL. *)
Definition bind_real (x : option pyfloat) : option pyfloat :=
  match x with
  | Some FNan => None
  | _ => x
  end.

(** The row of the [VALUES] clause, [excluded] in the conflict clause. *)
Definition excluded (r : row) (scraped_at : pystr) : fine := {|
  col_country := country r;
  col_authority := authority r;
  col_decision_date := decision_date r;
  col_amount_eur := bind_real (amount_eur r);
  col_controller_or_processor := controller_or_processor r;
  col_quoted_articles := quoted_articles r;
  col_type := type_ r;
  col_summary := summary r;
  col_source_url := source_url r;
  col_direct_url := direct_url r;
  col_scraped_at := Some scraped_at;
|}.

(** [ON CONFLICT(etid) DO UPDATE SET ...] *)
Definition do_update (fines excl : fine) : fine := {|
  col_country := col_country excl;
  col_authority := COALESCE (col_authority excl) (col_authority fines);
  col_decision_date := col_decision_date excl;
  col_amount_eur := col_amount_eur excl;
  col_controller_or_processor := col_controller_or_processor excl;
  col_quoted_articles := col_quoted_articles excl;
  col_type := col_type excl;
  col_summary := COALESCE (col_summary excl) (col_summary fines);
  col_source_url := COALESCE (col_source_url excl) (col_source_url fines);
  col_direct_url := COALESCE (col_direct_url excl) (col_direct_url fines);
  col_scraped_at := col_scraped_at excl;
|}.

(** The statement of [upsert_rows] on a table. *)
Definition insert_on_conflict (r : row) (scraped_at : pystr) (t : table) : table :=
  match t !! etid r with
  | None => <[etid r := excluded r scraped_at]> t
  | Some old => <[etid r := do_update old (excluded r scraped_at)]> t
  end.

(** A connection of [connect()]: the database file and, while a
    transaction is open, its uncommitted state. *)
Record connection := {
  disk : table;
  txn : option table;
}.

Definition connect (db : table) : connection := {| disk := db; txn := None |}.

(** What statements of the connection read and write. *)
Definition current (con : connection) : table := default (disk con) (txn con).

(** Which calls of one [upsert_rows] fail: the [i]-th [execute], the
    [commit]. *)
Record fault_plan := {
  execute_fails : nat -> bool;
  commit_fails : bool;
}.

Definition no_faults : fault_plan :=
  {| execute_fails := fun _ => false; commit_fails := false |}.

(** [con.execute(INSERT ...)]: the statement opens a transaction when none
    is open; one that fails changes nothing. *)
Definition execute (fails : bool) (r : row) (scraped_at : pystr)
    (con : connection) : outcome unit * connection :=
  if fails then (Raise SqliteError, con)
  else (Ok tt, {| disk := disk con;
                  txn := Some (insert_on_conflict r scraped_at (current con)) |}).

(** [con.commit()] *)
Definition commit (fails : bool) (con : connection) : outcome unit * connection :=
  if fails then (Raise SqliteError, con)
  else (Ok tt, {| disk := current con; txn := None |}).

(** [con.close()] in the [finally] of [connect]: an open transaction is
    rolled back. *)
Definition close (con : connection) : table := disk con.

(** [for r in rows: con.execute(...)], from the [i]-th statement on. *)
Fixpoint execute_all (f : fault_plan) (scraped_at : pystr) (i : nat)
    (rows : list row) (con : connection) : outcome unit * connection :=
  match rows with
  | [] => (Ok tt, con)
  | r :: rows' =>
      match execute (execute_fails f i) r scraped_at con with
      | (Ok _, con') => execute_all f scraped_at (S i) rows' con'
      | (err, con') => (err, con')
      end
  end.

(** [upsert_rows(rows)] on the database [db]: the outcome and the
    database afterwards. *)
Definition upsert_rows (f : fault_plan) (scraped_at : pystr)
    (rows : list row) (db : table) : outcome unit * table :=
  let con := connect db in
  match execute_all f scraped_at 0 rows con with
  | (Ok _, con') =>
      let '(res, con'') := commit (commit_fails f) con' in
      (res, close con'')
  | (err, con') => (err, close con')
  end.

(** The batch applied row by row, as the statements would without any
    failure. *)
Definition apply_batch (scraped_at : pystr) (rows : list row) (t : table) : table :=
  fold_left (fun t r => insert_on_conflict r scraped_at t) rows t.

End Db.
Export Db.

(* ===================================================================== *)
(** ** The rendered document and the collaborators *)
(* ===================================================================== *)

(** A cell of a row: its [inner_text()] and the [href] of every
    [a[href]] inside it. *)
Record Td := {
  td_text : pystr;
  td_hrefs : list pystr;
}.

(** A [tr] matched by the row selector: its [class] attribute, its [td]
    cells, the texts of its [span.dtr-title] and [span.dtr-data], its
    [inner_text()] and the [href] of every [a[href]] inside it. *)
Record Tr := {
  tr_class : option pystr;
  tr_cells : list Td;
  tr_titles : list pystr;
  tr_datas : list pystr;
  tr_text : pystr;
  tr_anchors : list pystr;
}.

(** The two candidate selectors of the "next page" control. *)
Inductive next_selector :=
| PaginateButtonNext   (* a.paginate_button.next:not(.disabled) *)
| LiNext.              (* li.next:not(.disabled) a *)

(** Library calls whose tables are not part of the repository. *)
Class Builtins := {
  (** [str.lower] *)
  lower : pystr -> pystr;
  (** [dtparse.parse(s, dayfirst=True).date().isoformat()], [None] when
      it raises *)
  dateutil_parse : pystr -> option pystr;
}.

(** The browser session, [P] being the state of the page. *)
Class Browser (P : Type) := {
  (** the rows [page.locator(sel)] resolves to *)
  rows : P -> list Tr;
  (** the [inner_text()] of every [table thead th] *)
  headers : P -> list pystr;
  (** [cells.first.click()] on the row at an index, then the 100 ms wait;
      a click that raises is swallowed *)
  click_first_cell : nat -> P -> P;
  (** [btn.count() > 0 and btn.first.is_visible()] *)
  next_visible : next_selector -> P -> bool;
  (** [btn.first.click()] *)
  click_next : next_selector -> P -> P;
  (** [page.wait_for_timeout(250)] *)
  wait_250 : P -> P;
}.

(** The clock and the storage faults met by the [n]-th page's upsert. *)
Class Host := {
  utcnow : nat -> pystr;
  db_faults : nat -> fault_plan;
}.

(* ===================================================================== *)
(** ** Child-row extraction *)
(* ===================================================================== *)

Section Extraction.
Context `{Builtins}.

Definition norm_label (s : pystr) : pystr :=
  let s := lower (strip s) in
  let s := replace [EURO] (py "e") s in
  let s := replace (py "controller / processor") (py "controller/processor") s in
  collapse_ws s.

(** [extract_child_kv]: label to value, a later label replacing an equal
    earlier one. *)
Definition extract_child_kv (child_tr : option Tr) : gmap pystr pystr :=
  match child_tr with
  | None => ∅
  | Some tr =>
      fold_left
        (fun kv '(title, data) =>
           let key := norm_label title in
           let val := strip data in
           if truthy key then <[key := val]> kv else kv)
        (zip (tr_titles tr) (tr_datas tr)) ∅
  end.

(** [str.splitlines()] *)
Definition is_linebreak (c : N) : bool :=
  ((10 <=? c) && (c <=? 13)) || ((28 <=? c) && (c <=? 30))
  || (c =? 133) || (c =? 8232) || (c =? 8233).

Fixpoint splitlines_from (cur : pystr) (s : pystr) : list pystr :=
  match s with
  | [] => match cur with [] => [] | _ => [rev cur] end
  | c :: s' =>
      if is_linebreak c then
        match c, s' with
        | 13, 10 :: s'' => rev cur :: splitlines_from [] s''
        | _, _ => rev cur :: splitlines_from [] s'
        end
      else splitlines_from (c :: cur) s'
  end.

Definition splitlines : pystr -> list pystr := splitlines_from [].

(** [s.split(sep, 1)[-1]]: what follows the first [sep], or [s]. *)
Fixpoint after_first (sep s : pystr) : option pystr :=
  if startswith sep s then Some (drop (length sep) s)
  else match s with
       | [] => None
       | _ :: s' => after_first sep s'
       end.

Definition split1_last (sep s : pystr) : pystr := default s (after_first sep s).

(** The dict [out] of [extract_child_freeform]. *)
Record freeform := {
  ff_authority : pystr;
  ff_sector : pystr;
  ff_summary : pystr;
  ff_direct_url : option pystr;
  ff_source_url : option pystr;
}.

Definition freeform_empty : freeform :=
  {| ff_authority := []; ff_sector := []; ff_summary := [];
     ff_direct_url := None; ff_source_url := None |}.

Definition freeform_line (out : freeform) (line : pystr) : freeform :=
  let s := strip line in
  let value label := strip_chars (py " :") (split1_last (py label) s) in
  if startswith (py "Authority") s then
    {| ff_authority := value "Authority"%string; ff_sector := ff_sector out;
       ff_summary := ff_summary out;
       ff_direct_url := ff_direct_url out; ff_source_url := ff_source_url out |}
  else if startswith (py "Sector") s then
    {| ff_authority := ff_authority out; ff_sector := value "Sector"%string;
       ff_summary := ff_summary out;
       ff_direct_url := ff_direct_url out; ff_source_url := ff_source_url out |}
  else if startswith (py "Summary") s then
    {| ff_authority := ff_authority out; ff_sector := ff_sector out;
       ff_summary := value "Summary"%string;
       ff_direct_url := ff_direct_url out; ff_source_url := ff_source_url out |}
  else out.

Definition freeform_anchor (out : freeform) (href : pystr) : freeform :=
  if negb (truthy href) then out
  else match absolute_url (Some href) with
       | None => out
       | Some full =>
           if negb (truthy full) then out
           else
             {| ff_authority := ff_authority out; ff_sector := ff_sector out;
                ff_summary := ff_summary out;
                ff_direct_url :=
                  if contains (py "/etid-") (lower full) then Some full
                  else ff_direct_url out;
                ff_source_url :=
                  if negb (truthy_opt (ff_source_url out)) then Some full
                  else ff_source_url out |}
       end.

Definition extract_child_freeform (child_tr : option Tr) : freeform :=
  match child_tr with
  | None => freeform_empty
  | Some tr =>
      let out := fold_left freeform_line (splitlines (tr_text tr)) freeform_empty in
      fold_left freeform_anchor (take 10 (tr_anchors tr)) out
  end.

Definition parse_date (raw : pystr) : option pystr :=
  if negb (truthy raw) then None
  else dateutil_parse (strip raw).

(* ===================================================================== *)
(** ** Header map *)
(* ===================================================================== *)

(** The dict [keys] of [build_header_map], in its order. *)
Definition keys : list (string * list pystr) :=
  [ ("etid", [py "etid"]);
    ("country", [py "country"]);
    ("date", [py "date of decision"; py "decision date"; py "date"]);
    ("fine", [py "fine"]);
    ("controller", [py "controller"; py "processor"; py "controller/processor"]);
    ("quoted", [py "quoted art"; py "article"]);
    ("type", [py "type"]);
    ("source", [py "source"]) ]%string.

(** The text of one [th] as it is put in [labels]. *)
Definition header_label (inner_text : pystr) : pystr :=
  collapse_ws (replace [EURO] (py "e") (lower (strip inner_text))).

(** [any(pat in lab for pat in patterns)] *)
Definition any_in (patterns : list pystr) (lab : pystr) : bool :=
  existsb (fun pat => contains pat lab) patterns.

(** The inner loop over [keys.items()] with its [break]: the first key one
    of whose patterns occurs in the label. *)
Definition key_of_label (lab : pystr) : option string :=
  fst <$> List.find (fun kp => any_in (snd kp) lab) keys.

(** [{k: None for k in keys.keys()}] *)
Definition header_map_init : gmap string (option nat) :=
  list_to_map (map (fun kp => (fst kp, None)) keys).

(** The loop over [enumerate(labels)], from index [idx] on. *)
Fixpoint header_loop (idx : nat) (labels : list pystr)
    (header_map : gmap string (option nat)) : gmap string (option nat) :=
  match labels with
  | [] => header_map
  | lab :: labels' =>
      header_loop (S idx) labels'
        match key_of_label lab with
        | Some key => <[key := Some idx]> header_map
        | None => header_map
        end
  end.

Definition build_header_map (ths : list pystr) : gmap string (option nat) :=
  header_loop 0 (map header_label ths) header_map_init.

End Extraction.

(* ===================================================================== *)
(** ** The crawl: [run] *)
(* ===================================================================== *)

Section Run.
Context `{Builtins} {P : Type} `{Browser P} `{Host}.

(** ["child" in (tr.get_attribute("class") or "").lower()] *)
Definition is_child (tr : Tr) : bool :=
  contains (py "child") (lower (default [] (tr_class tr))).

(** [a or b] on optional texts, and [a or ""]. *)
Definition or_else (a b : option pystr) : option pystr :=
  if truthy_opt a then a else b.
Definition or_empty (a : option pystr) : pystr :=
  if truthy_opt a then default [] a else [].

(** [header_map.get(header_key)] *)
Definition header_get (header_map : gmap string (option nat))
    (header_key : string) : option nat :=
  default None (header_map !! header_key).

(** [safe_text]: [tr] is the row as the page shows it when the text is
    read; reading the text of a cell that is not there raises. *)
Definition safe_text (header_map : gmap string (option nat)) (td_count : nat)
    (tr : option Tr) (header_key : string) : outcome pystr :=
  match header_get header_map header_key with
  | None => Ok []
  | Some i =>
      if (td_count <=? i)%nat then Ok []
      else match tr ≫= (fun t => tr_cells t !! i) with
           | Some td => Ok (strip (td_text td))
           | None => Raise PlaywrightError
           end
  end.

(** [safe_href]: counting the anchors of a cell that is not there gives 0. *)
Definition safe_href (header_map : gmap string (option nat)) (td_count : nat)
    (tr : option Tr) (header_key : string) : option pystr :=
  match header_get header_map header_key with
  | None => None
  | Some i =>
      if (td_count <=? i)%nat then None
      else match tr ≫= (fun t => tr_cells t !! i) with
           | Some td => head (td_hrefs td)
           | None => None
           end
  end.

(** The dict built from one primary row and its optional child row; its
    [etid] is [etid_txt], empty or not. *)
Definition assemble (header_map : gmap string (option nat)) (td_count : nat)
    (tr child : option Tr) : outcome row :=
  let kv := extract_child_kv child in
  let det := extract_child_freeform child in
  let get (label : string) := kv !! py label in
  etid_txt ← safe_text header_map td_count tr "etid";
  country ← safe_text header_map td_count tr "country";
  date_txt ← safe_text header_map td_count tr "date";
  fine_txt ← safe_text header_map td_count tr "fine";
  controller ← safe_text header_map td_count tr "controller";
  quoted ← safe_text header_map td_count tr "quoted";
  typ ← safe_text header_map td_count tr "type";
  let etid_txt := or_empty (or_else (Some etid_txt) (get "etid")) in
  let country := or_empty (or_else (Some country) (get "country")) in
  let date_txt :=
    or_empty (or_else (or_else (Some date_txt) (get "date of decision"))
                      (get "date")) in
  let fine_txt :=
    or_empty (or_else (or_else (or_else (Some fine_txt) (get "fine e"))
                               (get "fine €")) (get "fine")) in
  let controller := or_empty (or_else (Some controller) (get "controller/processor")) in
  let quoted :=
    or_empty (or_else (or_else (Some quoted) (get "quoted art."))
                      (get "quoted art")) in
  let typ := or_empty (or_else (Some typ) (get "type")) in
  let source_url :=
    absolute_url (or_else (safe_href header_map td_count tr "source") (get "source")) in
  let direct_url :=
    or_else (ff_direct_url det) (absolute_url (get "direct url")) in
  let authority := or_empty (Some (ff_authority det)) in
  let decision_date := parse_date date_txt in
  let amount_eur := parse_amount_eur fine_txt in
  Ok {| etid := etid_txt;
        country := Some country;
        authority := Some authority;
        decision_date := decision_date;
        amount_eur := amount_eur;
        controller_or_processor := Some controller;
        quoted_articles := Some quoted;
        type_ := Some typ;
        summary :=
          Some ((if truthy (ff_sector det)
                 then py "Sector: " ++ ff_sector det ++ py ". " else [])
                ++ or_empty (Some (ff_summary det)));
        source_url := source_url;
        direct_url := direct_url |}.

(** [if etid_txt and etid_txt not in seen: seen.add(..); batch.append(..)] *)
Definition keep (r : row) (seen : gset pystr) : bool :=
  truthy (etid r) && negb (bool_decide (etid r ∈ seen)).

Definition add_row (r : row) (acc : gset pystr * list row) : gset pystr * list row :=
  if keep r acc.1 then ({[etid r]} ∪ acc.1, acc.2 ++ [r]) else acc.

(** The child row of the row at [idx], if the next row is one, and the
    step of the cursor. *)
Definition child_of (rs : list Tr) (idx : nat) : option Tr * nat :=
  if (idx + 1 <? length rs)%nat then
    match rs !! (idx + 1)%nat with
    | Some maybe => if is_child maybe then (Some maybe, 2%nat) else (None, 1%nat)
    | None => (None, 1%nat)
    end
  else (None, 1%nat).

(** The inner [while True] of [run], from cursor [idx]. *)
Fixpoint scan_loop (fuel : nat) (header_map : gmap string (option nat))
    (idx : nat) (acc : gset pystr * list row) (p : P)
    : outcome (gset pystr * list row) * P :=
  match fuel with
  | O => (OutOfFuel, p)
  | S fuel' =>
      let count := length (rows p) in
      if (count <=? idx)%nat || (count =? 0)%nat then (Ok acc, p)
      else
        match rows p !! idx with
        | None => (Ok acc, p)
        | Some tr =>
            if is_child tr then scan_loop fuel' header_map (S idx) acc p
            else
              let td_count := length (tr_cells tr) in
              if (td_count =? 0)%nat then scan_loop fuel' header_map (S idx) acc p
              else
                let p' := click_first_cell idx p in
                let '(child, step) := child_of (rows p') idx in
                match assemble header_map td_count (rows p' !! idx) child with
                | Ok r => scan_loop fuel' header_map (idx + step) (add_row r acc) p'
                | Raise e => (Raise e, p')
                | OutOfFuel => (OutOfFuel, p')
                end
        end
  end.

(** One page's pass: [batch = []; idx = 0; while True: ...]. The loop is
    given one step more than the page has rows when the pass starts, which
    is all it takes on a page where a click shows at most the child row of
    the clicked row ([click_shows_child]). *)
Definition scan_page (header_map : gmap string (option nat)) (seen : gset pystr)
    (p : P) : outcome (gset pystr * list row) * P :=
  scan_loop (S (length (rows p))) header_map 0 (seen, []) p.

(** [for _ in range(n)]: wait, then look at the first row. *)
Fixpoint poll (n : nat) (first_before : pystr) (p : P) : bool * P :=
  match n with
  | O => (false, p)
  | S n' =>
      let p1 := wait_250 p in
      match rows p1 with
      | [] => poll n' first_before p1
      | tr :: _ =>
          if negb (str_eqb (tr_text tr) first_before) then (true, p1)
          else poll n' first_before p1
      end
  end.

Definition first_row_text (p : P) : pystr :=
  match rows p with
  | tr :: _ => tr_text tr
  | [] => []
  end.

(** The body of [for s in [...]] for one selector. *)
Definition try_next (s : next_selector) (header_map : gmap string (option nat))
    (p : P) : bool * gmap string (option nat) * P :=
  if next_visible s p then
    let first_before := first_row_text p in
    let '(moved, p2) := poll 20 first_before (click_next s p) in
    if moved then (true, build_header_map (headers p2), p2)
    else (false, header_map, p2)
  else (false, header_map, p).

(** The "next page" part of one iteration: [moved], the header map and
    the page afterwards. *)
Definition advance (header_map : gmap string (option nat)) (p : P)
    : bool * gmap string (option nat) * P :=
  let '(moved, hm1, p1) := try_next PaginateButtonNext header_map p in
  if moved then (true, hm1, p1) else try_next LiNext hm1 p1.

(** [max_pages and page_index >= max_pages] *)
Definition cap_reached (max_pages : option Z) (page_index : nat) : bool :=
  match max_pages with
  | Some n => negb (n =? 0)%Z && (n <=? Z.of_nat page_index)%Z
  | None => false
  end.

(** The page, the database and the batches handed to [upsert_rows] so
    far, oldest first. *)
Record world := {
  page : P;
  db : table;
  upserts : list (list row);
}.

(** The outer [while True] of [run]; [page_index] counts the pages done. *)
Fixpoint page_loop (fuel : nat) (max_pages : option Z) (page_index : nat)
    (seen : gset pystr) (header_map : gmap string (option nat)) (total : nat)
    (w : world) : outcome nat * world :=
  match fuel with
  | O => (OutOfFuel, w)
  | S fuel' =>
      let page_index := S page_index in
      match scan_page header_map seen (page w) with
      | (Ok (seen', batch), p1) =>
          let '(res, db1, log1) :=
            match batch with
            | [] => (Ok tt, db w, upserts w)
            | _ =>
                let '(res, db1) :=
                  upsert_rows (db_faults page_index) (utcnow page_index) batch (db w) in
                (res, db1, upserts w ++ [batch])
            end in
          match res with
          | Ok _ =>
              let total := (total + length batch)%nat in
              let '(moved, header_map', p2) := advance header_map p1 in
              let w' := {| page := p2; db := db1; upserts := log1 |} in
              if negb moved || cap_reached max_pages page_index
              then (Ok total, w')
              else page_loop fuel' max_pages page_index seen' header_map' total w'
          | Raise e => (Raise e, {| page := p1; db := db1; upserts := log1 |})
          | OutOfFuel => (OutOfFuel, {| page := p1; db := db1; upserts := log1 |})
          end
      | (Raise e, p1) => (Raise e, {| page := p1; db := db w; upserts := upserts w |})
      | (OutOfFuel, p1) => (OutOfFuel, {| page := p1; db := db w; upserts := upserts w |})
      end
  end.

(** [run(max_pages)] from the page [p0] as it stands once the table is
    there, on the database [db0], for at most [fuel] pages. *)
Definition run (fuel : nat) (max_pages : option Z) (p0 : P) (db0 : table)
    : outcome nat * world :=
  page_loop fuel max_pages 0 ∅ (build_header_map (headers p0)) 0
    {| page := p0; db := db0; upserts := [] |}.

(** A click on a row shows at most one more row, and when it does, that
    row is a child row right after the clicked one. *)
Definition click_shows_child : Prop :=
  forall (idx : nat) (p : P),
    let rs' := rows (click_first_cell idx p) in
    (length rs' <= S (length (rows p)))%nat /\
    (length rs' = S (length (rows p)) ->
     exists tr, rs' !! S idx = Some tr /\ is_child tr = true).

End Run.

(* ===================================================================== *)
(** ** Notions used to state the properties *)
(* ===================================================================== *)

Section Notions.
Context `{Builtins} {P : Type} `{Browser P} `{Host}.

(** The label goes to [key]: it contains one of the candidates of [key]
    and none of the candidates of a key listed before [key]. *)
Definition goes_to (lab : pystr) (key : string) : Prop :=
  exists before pats after,
    keys = before ++ (key, pats) :: after /\
    any_in pats lab = true /\
    Forall (fun kp => any_in (snd kp) lab = false) before.

(** The index a "first matching header wins" rule gives a key with the
    candidates [pats]. *)
Fixpoint first_header_index (idx : nat) (pats : list pystr)
    (labels : list pystr) : option nat :=
  match labels with
  | [] => None
  | lab :: labels' =>
      if any_in pats lab then Some idx
      else first_header_index (S idx) pats labels'
  end.

Definition outcome_map {A B C : Type} (f : A -> B) (x : outcome A * C)
    : outcome B * C :=
  match x with
  | (Ok a, c) => (Ok (f a), c)
  | (Raise e, c) => (Raise e, c)
  | (OutOfFuel, c) => (OutOfFuel, c)
  end.

(** The dicts the inner loop assembles, one per primary row it visits, in
    document order, before any of them is dropped. *)
Fixpoint scanned_rows (fuel : nat) (header_map : gmap string (option nat))
    (idx : nat) (p : P) : outcome (list row) * P :=
  match fuel with
  | O => (OutOfFuel, p)
  | S fuel' =>
      let count := length (rows p) in
      if (count <=? idx)%nat || (count =? 0)%nat then (Ok [], p)
      else
        match rows p !! idx with
        | None => (Ok [], p)
        | Some tr =>
            if is_child tr then scanned_rows fuel' header_map (S idx) p
            else
              let td_count := length (tr_cells tr) in
              if (td_count =? 0)%nat then scanned_rows fuel' header_map (S idx) p
              else
                let p' := click_first_cell idx p in
                let '(child, step) := child_of (rows p') idx in
                match assemble header_map td_count (rows p' !! idx) child with
                | Ok r =>
                    outcome_map (cons r)
                      (scanned_rows fuel' header_map (idx + step) p')
                | Raise e => (Raise e, p')
                | OutOfFuel => (OutOfFuel, p')
                end
        end
  end.

Definition scanned_page (header_map : gmap string (option nat)) (p : P)
    : outcome (list row) * P :=
  scanned_rows (S (length (rows p))) header_map 0 p.





End Notions.

(** Some call of the first [n] [execute] calls or the [commit] fails. *)
Definition faulty (f : fault_plan) (n : nat) : bool :=
  existsb (execute_fails f) (seq 0 n) || commit_fails f.

(** [fold_rows rs (seen, batch)]: [seen] and [batch] once the dicts [rs]
    went through the test of the inner loop, in order. *)
Definition fold_rows (rs : list row) (acc : gset pystr * list row)
    : gset pystr * list row :=
  fold_left (fun a r => add_row r a) rs acc.

(** The batches handed to the store so far carry non-empty keys, no key
    twice, and only keys that are in [seen]. *)
Definition log_ok (seen : gset pystr) (log : list (list row)) : Prop :=
  NoDup (map etid (concat log)) /\
  (forall r, r ∈ concat log -> etid r ∈ seen) /\
  Forall (Forall (fun r => etid r <> [])) log.

(* ===================================================================== *)
(** ** A table with expandable rows and pages, to run the crawl on *)
(* ===================================================================== *)

Module Sim.

(** A date parser for [dd/mm/yyyy] texts only. *)
Definition parse_dmy (s : pystr) : option pystr :=
  match s with
  | [d1; d2; 47; m1; m2; 47; y1; y2; y3; y4] =>
      if forallb ascii_digit [d1; d2; m1; m2; y1; y2; y3; y4]
      then Some [y1; y2; y3; y4; 45; m1; m2; 45; d1; d2]
      else None
  | _ => None
  end.

#[export] Instance builtins : Builtins :=
  {| lower := ascii_lower; dateutil_parse := parse_dmy |}.

(** The content of a detail panel. *)
Record detail := {
  d_titles : list pystr;
  d_datas : list pystr;
  d_text : pystr;
  d_anchors : list pystr;
}.

Definition child_tr (d : detail) : Tr :=
  {| tr_class := Some (py "child");
     tr_cells := [ {| td_text := d_text d; td_hrefs := d_anchors d |} ];
     tr_titles := d_titles d;
     tr_datas := d_datas d;
     tr_text := d_text d;
     tr_anchors := d_anchors d |}.

(** A primary row made of plain cells. *)
Definition primary_tr (cells : list pystr) : Tr :=
  {| tr_class := Some (py "odd");
     tr_cells := map (fun t => {| td_text := t; td_hrefs := [] |}) cells;
     tr_titles := []; tr_datas := [];
     tr_text := concat cells;
     tr_anchors := [] |}.

(** A logical row: the primary row, its detail panel if it has one, and
    whether the panel is shown. *)
Record entry := {
  e_row : Tr;
  e_detail : option detail;
  e_open : bool;
}.

Definition entry_rows (e : entry) : list Tr :=
  e_row e :: (if e_open e then option_list (child_tr <$> e_detail e) else []).

Definition toggle (e : entry) : entry :=
  {| e_row := e_row e; e_detail := e_detail e; e_open := negb (e_open e) |}.

(** A click on the first cell of the row at [idx] toggles its panel; on a
    detail row it does nothing. *)
Fixpoint click_entries (idx : nat) (es : list entry) {struct es} : list entry :=
  match es with
  | [] => []
  | e :: es' =>
      match idx with
      | O => toggle e :: es'
      | S k =>
          if (S k <? length (entry_rows e))%nat then e :: es'
          else e :: click_entries (S k - length (entry_rows e)) es'
      end
  end.

(** The page shown and the pages that follow. *)
Record site := {
  s_headers : list pystr;
  s_shown : list entry;
  s_later : list (list entry);
}.

#[export] Instance browser : Browser site :=
  {| rows := fun p => flat_map entry_rows (s_shown p);
     headers := s_headers;
     click_first_cell := fun idx p =>
       {| s_headers := s_headers p;
          s_shown := click_entries idx (s_shown p);
          s_later := s_later p |};
     next_visible := fun s p =>
       match s, s_later p with
       | PaginateButtonNext, _ :: _ => true
       | _, _ => false
       end;
     click_next := fun _ p =>
       match s_later p with
       | [] => p
       | es :: later =>
           {| s_headers := s_headers p; s_shown := es; s_later := later |}
       end;
     wait_250 := fun p => p |}.

#[export] Instance host : Host :=
  {| utcnow := fun _ => py "2024-01-01T00:00:00+00:00";
     db_faults := fun _ => no_faults |}.

Definition std_headers : list pystr :=
  [py "View"; py "ETId"; py "Country"; py "Date of decision"; py "Fine [€]";
   py "Controller/processor"; py "Quoted Art."; py "Type"; py "Source"].

(** A closed row with the given key and country and no detail panel. *)
Definition plain_entry (key country : string) : entry :=
  {| e_row := primary_tr [ []; py key; py country; py "03/02/2022"; py "10.000 €";
                           py "Acme GmbH"; py "Art. 5"; py "Controller"; [] ];
     e_detail := None;
     e_open := false |}.

(** The same with a detail panel, closed. *)
Definition detailed_entry (key country : string) : entry :=
  {| e_row := e_row (plain_entry key country);
     e_detail :=
       Some {| d_titles := []; d_datas := [];
               d_text := py "Authority: LDA
Sector: Retail
Summary: Misuse of data";
               d_anchors := [py "/etid-123"] |};
     e_open := false |}.

(** One key on two pages. *)
Definition site_two_pages : site :=
  {| s_headers := std_headers;
     s_shown := [detailed_entry "DE-001" "Germany"];
     s_later := [[plain_entry "DE-001" "France"]] |}.


(** One page on which the key of the first row comes back in the third,
    and no control to go on. *)
Definition site_one_page : site :=
  {| s_headers := std_headers;
     s_shown := [detailed_entry "DE-001" "Germany"; plain_entry "FR-002" "France";
                 plain_entry "DE-001" "Spain"];
     s_later := [] |}.

(** A first visit of a fine, with its detail panel, and a later visit on
    which the panel is not there. *)
Definition site_first_visit : site :=
  {| s_headers := std_headers;
     s_shown := [detailed_entry "DE-001" "Germany"];
     s_later := [] |}.

Definition site_second_visit : site :=
  {| s_headers := std_headers;
     s_shown := [plain_entry "DE-001" "France"];
     s_later := [] |}.

(** The dicts the crawl builds on these two visits. *)
Definition row_first_visit : row :=
  {| etid := py "DE-001";
     country := Some (py "Germany");
     authority := Some (py "LDA");
     decision_date := Some (py "2022-02-03");
     amount_eur := Some (FDec false 10000 0);
     controller_or_processor := Some (py "Acme GmbH");
     quoted_articles := Some (py "Art. 5");
     type_ := Some (py "Controller");
     summary := Some (py "Sector: Retail. Misuse of data");
     source_url := None;
     direct_url := Some (py "https://www.enforcementtracker.com/etid-123") |}.

(** The dict of a row without detail panel, by its key and country. *)
Definition row_plain (key c : string) : row :=
  {| etid := py key;
     country := Some (py c);
     authority := Some [];
     decision_date := Some (py "2022-02-03");
     amount_eur := Some (FDec false 10000 0);
     controller_or_processor := Some (py "Acme GmbH");
     quoted_articles := Some (py "Art. 5");
     type_ := Some (py "Controller");
     summary := Some [];
     source_url := None;
     direct_url := None |}.

Definition row_second_visit : row := row_plain "DE-001" "France".

End Sim.

(* ===================================================================== *)
(** ** Notions used to state further properties of the store and the run *)
(* ===================================================================== *)

(** The row stored under [etid r] once [r] is upserted at [scraped_at],
    [old] being what was stored before. *)
Definition upserted (old : option fine) (r : row) (scraped_at : pystr) : fine :=
  match old with
  | None => excluded r scraped_at
  | Some o => do_update o (excluded r scraped_at)
  end.

(** The row with another time of scraping. *)
Definition touch (scraped_at : pystr) (f : fine) : fine :=
  {| col_country := col_country f;
     col_authority := col_authority f;
     col_decision_date := col_decision_date f;
     col_amount_eur := col_amount_eur f;
     col_controller_or_processor := col_controller_or_processor f;
     col_quoted_articles := col_quoted_articles f;
     col_type := col_type f;
     col_summary := col_summary f;
     col_source_url := col_source_url f;
     col_direct_url := col_direct_url f;
     col_scraped_at := Some scraped_at |}.

(** Batches applied one after the other, each at its own time. *)
Definition replay (log : list (pystr * list row)) (t : table) : table :=
  fold_left (fun t x => apply_batch x.1 x.2 t) log t.

(** The batches of a log that went into the database: all of them, but
    for the last one when the run stopped on a failing [upsert_rows]. *)
Definition committed {A} (res : outcome A) (log : list (list row))
    : list (list row) :=
  match res with
  | Raise SqliteError => removelast log
  | _ => log
  end.

(** None of the four columns written through [COALESCE] goes from a value
    to NULL. *)
Definition keeps_enrichment (old new : fine) : Prop :=
  (is_Some (col_authority old) -> is_Some (col_authority new)) /\
  (is_Some (col_summary old) -> is_Some (col_summary new)) /\
  (is_Some (col_source_url old) -> is_Some (col_source_url new)) /\
  (is_Some (col_direct_url old) -> is_Some (col_direct_url new)).

Section RunNotions.
Context `{Builtins} {P : Type} `{Browser P} `{Host}.

(** The database is the starting one with the committed batches applied
    in order, each at a time read from the clock. *)
Definition replayed (db0 : table) (res : outcome nat) (w : @world P) : Prop :=
  exists tss,
    length tss = length (committed res (upserts w)) /\
    Forall (fun ts => exists n, ts = utcnow n) tss /\
    db w = replay (zip tss (committed res (upserts w))) db0.

(** A click on a row leaves that row where and what it is. *)
Definition click_keeps_row : Prop :=
  forall (idx : nat) (p : P),
    rows (click_first_cell idx p) !! idx = rows p !! idx.

End RunNotions.

(** An optional URL that is absent or starts with "http". *)
Definition absolute_or_absent (o : option pystr) : Prop :=
  match o with
  | None => True
  | Some u => startswith (py "http") u = true
  end.

(** The URLs [extract_child_freeform] gets from a list of [href] values:
    an empty [href] is passed over, any other is made absolute. *)
Definition anchor_urls (hrefs : list pystr) : list pystr :=
  omap (fun h => if truthy h then absolute_url (Some h) else None) hrefs.

(** The value [extract_child_freeform] keeps for a label, given the lines
    of the panel's text: that of the last line that, once stripped, starts
    with the label, without the label and the spaces and colons around
    what follows; [dflt] when no line starts with the label. *)
Definition labelled_value (label : pystr) (lines : list pystr) (dflt : pystr)
    : pystr :=
  match last (List.filter (startswith label) (map strip lines)) with
  | Some s => strip_chars (py " :") (drop (length label) s)
  | None => dflt
  end.

(** The six text fields of a dict are texts, not [None], and its two URLs
    are absent or absolute. *)
Definition well_shaped (r : row) : Prop :=
  is_Some (country r) /\ is_Some (authority r) /\
  is_Some (controller_or_processor r) /\ is_Some (quoted_articles r) /\
  is_Some (type_ r) /\ is_Some (summary r) /\
  absolute_or_absent (source_url r) /\ absolute_or_absent (direct_url r).

(** *** Amounts written in groups of three digits *)

(** The code points [parse_amount_eur] deletes: the euro sign, the
    non-breaking space and the space. *)
Definition amount_noise (c : N) : bool := (c =? EURO) || (c =? NBSP) || (c =? 32).

(** A dot or a comma. *)
Definition is_sep (c : N) : bool := (c =? 46) || (c =? 44).

(** A text made of leading digits [ip], groups each introduced by a
    separator, and possibly a last separator followed by the digits
    [fp]. *)
Definition grouped_text (ip : pystr) (groups : list (N * pystr))
    (dec : option (N * pystr)) : pystr :=
  ip ++ concat (map (fun g => g.1 :: g.2) groups)
     ++ match dec with Some (sep, fp) => sep :: fp | None => [] end.

Definition digits_of (ds : pystr) : list N := map (fun c => c - 48) ds.

Definition all_ascii_digits (ds : pystr) : Prop :=
  Forall (fun c => ascii_digit c = true) ds.

(** The leading digits are there, every group has a dot or comma and
    exactly three digits, and the digits after the last separator, if
    any, are not exactly three. *)
Definition well_grouped (ip : pystr) (groups : list (N * pystr))
    (dec : option (N * pystr)) : Prop :=
  ip <> [] /\ all_ascii_digits ip /\
  Forall (fun g => is_sep g.1 = true /\ length g.2 = 3%nat /\ all_ascii_digits g.2)
         groups /\
  match dec with
  | Some (sep, fp) => is_sep sep = true /\ all_ascii_digits fp /\ length fp <> 3%nat
  | None => True
  end.

(** The number such a text stands for: all its digits, the last
    [length fp] of them after the decimal point. *)
Definition grouped_value (ip : pystr) (groups : list (N * pystr))
    (dec : option (N * pystr)) : pyfloat :=
  let fp := match dec with Some (_, fp) => fp | None => [] end in
  FDec false (digits_value (digits_of (ip ++ concat (map snd groups) ++ fp)))
       (- Z.of_nat (length fp)).

(* ===================================================================== *)
(** ** The query service: [api.py] *)
(* ===================================================================== *)

Module Api.

(** The dict [row_to_dict] builds from a row of [fines]. *)
Record fine_dict := {
  j_etid : pystr;
  j_country : option pystr;
  j_authority : option pystr;
  j_decision_date : option pystr;
  j_amount_eur : option pyfloat;
  j_controller_or_processor : option pystr;
  j_quoted_articles : option pystr;
  j_type : option pystr;
  j_summary : option pystr;
  j_source_url : option pystr;
  j_direct_url : option pystr;
  j_scraped_at : option pystr;
}.

Definition row_to_dict (etid : pystr) (row : fine) : fine_dict := {|
  j_etid := etid;
  j_country := col_country row;
  j_authority := col_authority row;
  j_decision_date := col_decision_date row;
  j_amount_eur := col_amount_eur row;
  j_controller_or_processor := col_controller_or_processor row;
  j_quoted_articles := col_quoted_articles row;
  j_type := col_type row;
  j_summary := col_summary row;
  j_source_url := col_source_url row;
  j_direct_url := col_direct_url row;
  j_scraped_at := col_scraped_at row;
|}.

(** What an endpoint gives: a value, or an [HTTPException]. *)
Inductive response (A : Type) :=
| Returned (a : A)
| HTTPException (status_code : nat) (detail : string).
Arguments Returned {A} a.
Arguments HTTPException {A} status_code detail.

(** [get_fine(etid)]: [SELECT * FROM fines WHERE etid = ?], the primary
    key, then [fetchone()]. *)
Definition get_fine (etid : pystr) (db : table) : response fine_dict :=
  match db !! etid with
  | None => HTTPException 404 "ETID not found"
  | Some row => Returned (row_to_dict etid row)
  end.

(** A value bound to a [?] of a statement. *)
Inductive param :=
| PText (s : pystr)
| PReal (x : pyfloat)
| PInt (n : Z).

(** [if v: sql += clause; params.append(wrap(v))] for an optional text. *)
Definition text_filter (v : option pystr) (clause : string)
    (wrap : pystr -> pystr) (q : string * list param) : string * list param :=
  match v with
  | Some s => if truthy s then (q.1 +:+ clause, q.2 ++ [PText (wrap s)]) else q
  | None => q
  end.

(** [if v is not None: sql += clause; params.append(v)] for an optional
    float. *)
Definition real_filter (v : option pyfloat) (clause : string)
    (q : string * list param) : string * list param :=
  match v with
  | Some x => (q.1 +:+ clause, q.2 ++ [PReal x])
  | None => q
  end.

(** [f"%{s}%"] *)
Definition like_pattern (s : pystr) : pystr := [37] ++ s ++ [37].

(** The statement and the parameters [list_fines] hands to
    [con.execute]. *)
Definition list_fines_sql (country authority article : option pystr)
    (min_amount max_amount : option pyfloat)
    (controller type_ date_from date_to : option pystr)
    (limit offset : Z) : string * list param :=
  let q := ("SELECT * FROM fines WHERE 1=1"%string, []) in
  let q := text_filter country " AND country = ?" id q in
  let q := text_filter authority " AND authority = ?" id q in
  let q := text_filter article " AND quoted_articles LIKE ?" like_pattern q in
  let q := text_filter controller " AND controller_or_processor LIKE ?"
                       like_pattern q in
  let q := text_filter type_ " AND type = ?" id q in
  let q := real_filter min_amount " AND amount_eur >= ?" q in
  let q := real_filter max_amount " AND amount_eur <= ?" q in
  let q := text_filter date_from " AND decision_date >= ?" id q in
  let q := text_filter date_to " AND decision_date <= ?" id q in
  (q.1 +:+ " ORDER BY decision_date DESC, amount_eur DESC LIMIT ? OFFSET ?",
   q.2 ++ [PInt limit; PInt offset]).

(** The number of [?] in a statement. *)
Fixpoint placeholders (sql : string) : nat :=
  match sql with
  | EmptyString => 0
  | String c rest =>
      (if Ascii.eqb c "?" then 1 else 0) + placeholders rest
  end.

(** The values of the filters that are set, in the order of the clauses,
    then the limit and the offset. *)
Definition given_text (v : option pystr) (wrap : pystr -> pystr) : list param :=
  match v with
  | Some s => if truthy s then [PText (wrap s)] else []
  | None => []
  end.

Definition given_real (v : option pyfloat) : list param :=
  match v with
  | Some x => [PReal x]
  | None => []
  end.

End Api.

(* ===================================================================== *)
(** * Properties *)
(* ===================================================================== *)

(** ** Texts *)

Section TextFacts.
Implicit Types (s t : pystr) (c : N).

Lemma lstrip_by_suffix f s : exists pre, s = pre ++ lstrip_by f s.
Proof.
  induction s as [|a s [pre IH]]; simpl.
  - by exists [].
  - destruct (f a).
    + exists (a :: pre). by rewrite IH at 1.
    + by exists [].
Qed.

Lemma lstrip_by_elem f s c : c ∈ lstrip_by f s -> c ∈ s.
Proof.
  destruct (lstrip_by_suffix f s) as [pre E]. intros Hc.
  rewrite E. apply elem_of_app. by right.
Qed.

Lemma rstrip_by_elem f s c : c ∈ rstrip_by f s -> c ∈ s.
Proof.
  unfold rstrip_by. intros Hc.
  apply list_elem_of_In, in_rev, list_elem_of_In, lstrip_by_elem in Hc.
  by apply list_elem_of_In, in_rev, list_elem_of_In.
Qed.

Lemma strip_by_elem f s c : c ∈ strip_by f s -> c ∈ s.
Proof.
  unfold strip_by. intros Hc.
  apply rstrip_by_elem in Hc. by apply lstrip_by_elem in Hc.
Qed.

Lemma lstrip_by_head f s c : head (lstrip_by f s) = Some c -> f c = false.
Proof.
  induction s as [|a s IH]; simpl; [done|].
  destruct (f a) eqn:Fa; [done|]. simpl. by intros [= <-].
Qed.

Lemma lstrip_by_id f s :
  (forall c, head s = Some c -> f c = false) -> lstrip_by f s = s.
Proof.
  destruct s as [|a s]; simpl; [done|]. intros Hh. by rewrite Hh.
Qed.

Lemma replace_from_elem s : forall k old new c,
  c ∈ replace_from k old new s -> c ∈ s \/ c ∈ new.
Proof.
  induction s as [|a s IH]; intros k old new c; simpl.
  - by left.
  - destruct k as [|k].
    + destruct (startswith old (a :: s)).
      * rewrite elem_of_app. intros [Hc | Hc]; [by right|].
        apply IH in Hc as [Hc | Hc]; [left; by right | by right].
      * rewrite elem_of_cons. intros [-> | Hc]; [left; by left|].
        apply IH in Hc as [Hc | Hc]; [left; by right | by right].
    + intros Hc. apply IH in Hc as [Hc | Hc]; [left; by right | by right].
Qed.

Lemma drop_thousands_elem s : forall prev c,
  c ∈ drop_thousands prev s -> c ∈ s.
Proof.
  induction s as [|a s IH]; intros prev c; simpl; [done|].
  destruct (_ && _ && _).
  - intros Hc. right. by apply IH in Hc.
  - rewrite !elem_of_cons. intros [-> | Hc]; [by left|].
    right. by apply IH in Hc.
Qed.

Lemma digit_value_lt c d : digit_value c = Some d -> d < 10.
Proof.
  unfold digit_value.
  destruct (List.find _ nd_starts) as [st|] eqn:E; [|done].
  intros [= <-]. apply find_some in E as [_ E].
  apply andb_true_iff in E as [E1 E2].
  apply N.leb_le in E1. apply N.ltb_lt in E2. lia.
Qed.

Example strip_ex : strip (py "  a b  ") = py "a b".
Proof. reflexivity. Qed.

Example replace_ex : replace (py "ab") (py "x") (py "aababab") = py "axxx".
Proof. reflexivity. Qed.

Example collapse_ws_ex : collapse_ws (py "Fine   [e]  x") = py "Fine [e] x".
Proof. reflexivity. Qed.

Example splitlines_ex :
  splitlines [97; 13; 10; 98; 10; 10; 99; 10] = [[97]; [98]; []; [99]].
Proof. reflexivity. Qed.

Example drop_thousands_ex :
  drop_thousands None (py "1.234.567.89") = py "1234567.89" /\
  drop_thousands None (py "1.2345") = py "1.2345".
Proof. split; reflexivity. Qed.

Example float_of_str_ex :
  float_of_str (py " 1_000.5e1 ") = Some (FDec false 10005 0) /\
  float_of_str (py "1__0") = None /\
  float_of_str (py "-Infinity") = Some (FInf true) /\
  float_of_str [1633; 1634] = Some (FDec false 12 0) /\
  float_of_str (py "1e") = None.
Proof. repeat split; reflexivity. Qed.

Example parse_amount_eur_ex :
  parse_amount_eur (py "10.000 €") = Some (FDec false 10000 0) /\
  parse_amount_eur (py "1,5") = Some (FDec false 15 (-1)) /\
  parse_amount_eur (py "1,234") = Some (FDec false 1234 0).
Proof. repeat split; reflexivity. Qed.

End TextFacts.

(** ** [float] and [parse_amount_eur] *)

Section AmountFacts.
Implicit Types (s t : pystr) (x : pyfloat).

Lemma to_ascii_minus s : 45 ∈ to_ascii s -> 45 ∈ s.
Proof.
  induction s as [|a s IH]; simpl; [done|].
  destruct (a <? 127).
  - rewrite !elem_of_cons. intros [-> | Hc]; [by left | right; auto].
  - destruct (is_space a).
    + rewrite !elem_of_cons. intros [? | Hc]; [done | right; auto].
    + destruct (digit_value a) as [d|] eqn:Ed.
      * apply digit_value_lt in Ed.
        rewrite !elem_of_cons. intros [? | Hc]; [lia | right; auto].
      * rewrite list_elem_of_singleton. done.
Qed.

Lemma drop_underscores_elem s : forall prev r c,
  drop_underscores prev s = Some r -> c ∈ r -> c ∈ s.
Proof.
  induction s as [|a s IH]; intros prev r c; simpl.
  - destruct (prev =? 95); [done|]. by intros [= <-].
  - destruct (a =? 95).
    + destruct (ascii_digit prev); [|done].
      intros Hr Hc. right. by eapply IH.
    + destruct (_ && _); [done|].
      destruct (drop_underscores a s) as [r'|] eqn:Er; [|done].
      intros [= <-]. rewrite !elem_of_cons.
      intros [-> | Hc]; [by left | right; by eapply IH].
Qed.

Lemma take_sign_neg s s' : take_sign s = (true, s') -> 45 ∈ s.
Proof.
  destruct s as [|a s]; simpl; [done|].
  destruct (a =? 45) eqn:Ea.
  - apply N.eqb_eq in Ea as ->. intros _. by left.
  - by destruct (a =? 43).
Qed.

Lemma parse_decimal_sign t x :
  parse_decimal t = Some x -> float_nonneg x = true \/ 45 ∈ t.
Proof.
  unfold parse_decimal.
  destruct (take_sign t) as [neg s1] eqn:Esign.
  destruct (span_digits s1) as [ip s2].
  destruct (match s2 with [] => _ | _ :: _ => _ end) as [fp s3].
  assert (Hneg : forall m e, float_nonneg (FDec neg m e) = true \/ 45 ∈ t).
  { intros m e. destruct neg; [right | by left].
    by eapply take_sign_neg. }
  destruct (ip ++ fp) as [|d ds]; [done|].
  destruct s3 as [|c s3]; [intros [= <-]; apply Hneg|].
  destruct (_ || _); [|done].
  destruct (take_sign s3) as [eneg t1].
  destruct (span_digits t1) as [ed t2].
  destruct ed; [done|]. destruct t2; [|done].
  intros [= <-]. apply Hneg.
Qed.

Lemma parse_inf_or_nan_sign t x :
  parse_inf_or_nan t = Some x ->
  x = FNan \/ float_nonneg x = true \/ 45 ∈ t.
Proof.
  unfold parse_inf_or_nan.
  destruct (take_sign t) as [neg s1] eqn:Esign.
  destruct (_ || _).
  - intros [= <-]. right. destruct neg; [right | by left].
    by eapply take_sign_neg.
  - destruct (str_eqb _ _); [|done]. intros [= <-]. by left.
Qed.

Lemma float_of_str_sign s x :
  float_of_str s = Some x ->
  x = FNan \/ float_nonneg x = true \/ 45 ∈ s.
Proof.
  unfold float_of_str.
  destruct (drop_underscores 0 (to_ascii s)) as [a|] eqn:Ea; [|done].
  assert (Hin : 45 ∈ strip_by c_space a -> 45 ∈ s).
  { intros Hc. apply to_ascii_minus.
    eapply drop_underscores_elem; [exact Ea|]. by eapply strip_by_elem. }
  destruct (parse_decimal _) as [y|] eqn:Ey.
  - intros [= <-]. apply parse_decimal_sign in Ey as [?|?]; auto.
  - intros Hx. apply parse_inf_or_nan_sign in Hx as [?|[?|?]]; auto.
Qed.

(** The cleaning steps of [parse_amount_eur] bring in no minus sign. *)
Lemma cleaned_minus raw :
  45 ∈ drop_thousands None
         (replace [44] [46]
            (replace [32] [] (replace [NBSP] [] (replace [EURO] [] (strip raw))))) ->
  45 ∈ raw.
Proof.
  intros Hc. apply drop_thousands_elem in Hc.
  apply replace_from_elem in Hc as [Hc | Hc].
  2: { apply list_elem_of_singleton in Hc. done. }
  do 3 (apply replace_from_elem in Hc as [Hc | Hc];
        [| by apply elem_of_nil in Hc]).
  by eapply strip_by_elem.
Qed.

(** C5: the amount normaliser on the four sample texts. The float is the
    decimal the cleaned text spells: 1234.56 is 123456e-2, and 42.0 is
    the same number as 42. *)
Theorem parse_amount_eur_samples :
  parse_amount_eur (py "1.234,56 €") = Some (FDec false 123456 (-2)) /\
  (exists x, parse_amount_eur (py "42") = Some x /\
             float_eqb x (FDec false 420 (-1)) = true) /\
  parse_amount_eur (py "") = None /\
  parse_amount_eur (py "not a number") = None.
Proof.
  split; [reflexivity|]. split; [|split; reflexivity].
  exists (FDec false 42 0). split; reflexivity.
Qed.

(** C6 as stated fails: the text "-5" is read as the negative float -5.0. *)
Lemma parse_amount_eur_negative :
  exists x, parse_amount_eur (py "-5") = Some x /\ float_nonneg x = false.
Proof. exists (FDec true 5 0). split; reflexivity. Qed.

(** C6, amended: for a text without a minus sign, the amount is absent,
    not-a-number (the text "nan") or a float that is not negative. *)
Theorem parse_amount_eur_sign (raw : pystr) (x : pyfloat) :
  45 ∉ raw ->
  parse_amount_eur raw = Some x ->
  x = FNan \/ float_nonneg x = true.
Proof.
  intros Hraw. unfold parse_amount_eur.
  destruct (negb (truthy raw)); [done|].
  intros Hx. apply float_of_str_sign in Hx as [?|[?|Hc]]; auto.
  apply cleaned_minus in Hc. done.
Qed.

Lemma parse_amount_eur_sign_witness :
  FDec false 42 0 = FNan \/ float_nonneg (FDec false 42 0) = true.
Proof.
  apply (parse_amount_eur_sign (py "42") (FDec false 42 0)).
  - vm_compute. intros Hc. repeat (apply elem_of_cons in Hc as [Hc | Hc]; [discriminate|]).
    by apply elem_of_nil in Hc.
  - reflexivity.
Defined.

End AmountFacts.

(** ** [absolute_url] *)

Section UrlFacts.
Implicit Types (s t : pystr).

Lemma lstrip_chars_no_slash s :
  startswith [47] (lstrip_chars [47] s) = false.
Proof.
  unfold lstrip_chars.
  destruct (lstrip_by (in_chars [47]) s) as [|c t] eqn:E; [done|].
  assert (Hc : in_chars [47] c = false).
  { apply (lstrip_by_head _ s). by rewrite E. }
  change (in_chars [47] c) with ((c =? 47) || false) in Hc.
  change (startswith [47] (c :: t)) with ((47 =? c) && true).
  rewrite orb_false_r in Hc. by rewrite andb_true_r, N.eqb_sym.
Qed.

Lemma rstrip_base : rstrip_chars [47] BASE_URL = BASE_URL.
Proof. reflexivity. Qed.

(** C7 as stated fails: an input with a scheme other than http(s) is not
    returned unchanged but joined to the base. *)
Lemma absolute_url_other_scheme :
  absolute_url (Some (py "ftp://x/y"))
    = Some (py "https://www.enforcementtracker.com/ftp://x/y") /\
  absolute_url (Some (py "ftp://x/y")) <> Some (py "ftp://x/y").
Proof. split; [reflexivity | discriminate]. Qed.

(** C7, amended: an input whose text, stripped of surrounding whitespace,
    starts with "http" is returned as that stripped text, hence unchanged
    when it carries no such whitespace; every other non-empty input is
    stripped, freed of its leading slashes and put after the base and one
    slash; "/etid-123" and "https://x/y" give what the claim says. *)
Theorem absolute_url_cases (s : pystr) :
  s <> [] ->
  (startswith (py "http") (strip s) = true ->
     absolute_url (Some s) = Some (strip s) /\
     (strip s = s -> absolute_url (Some s) = Some s)) /\
  (startswith (py "http") (strip s) = false ->
     exists t, t = lstrip_chars [47] (strip s) /\
               startswith [47] t = false /\
               absolute_url (Some s) = Some (BASE_URL ++ [47] ++ t)) /\
  absolute_url (Some (py "/etid-123")) = Some (BASE_URL ++ py "/etid-123") /\
  absolute_url (Some (py "https://x/y")) = Some (py "https://x/y").
Proof.
  intros Hs.
  assert (Hdef : absolute_url (Some s) =
                 if startswith (py "http") (strip s) then Some (strip s)
                 else Some (BASE_URL ++ [47] ++ lstrip_chars [47] (strip s))).
  { unfold absolute_url. destruct s; [done|]. simpl negb. cbv iota.
    by rewrite rstrip_base. }
  split; [|split; [|split; reflexivity]].
  - intros Hhttp. rewrite Hdef, Hhttp. split; [done|]. by intros ->.
  - intros Hno. eexists. split; [reflexivity|].
    split; [apply lstrip_chars_no_slash|]. by rewrite Hdef, Hno.
Qed.

Lemma absolute_url_cases_witness :
  absolute_url (Some (py "https://x/y")) = Some (py "https://x/y") /\
  absolute_url (Some (py "//a/b")) = Some (BASE_URL ++ py "/a/b").
Proof.
  split.
  - destruct (absolute_url_cases (py "https://x/y")) as (Hhttp & _); [discriminate|].
    destruct Hhttp as [_ Hid]; [reflexivity|]. apply Hid. reflexivity.
  - destruct (absolute_url_cases (py "//a/b")) as (_ & Hjoin & _); [discriminate|].
    destruct Hjoin as (t & -> & _ & Hurl); [reflexivity|]. exact Hurl.
Defined.

End UrlFacts.

(** ** The store *)

Section StoreFacts.
Implicit Types (r : row) (t : table) (con : connection) (f : fault_plan).

Lemma insert_on_conflict_lookup r ts t :
  insert_on_conflict r ts t !! etid r =
    Some match t !! etid r with
         | None => excluded r ts
         | Some old => do_update old (excluded r ts)
         end.
Proof.
  unfold insert_on_conflict.
  destruct (t !! etid r); by rewrite lookup_insert_eq.
Qed.

Lemma insert_on_conflict_other r ts t k :
  k <> etid r -> insert_on_conflict r ts t !! k = t !! k.
Proof.
  intros Hk. unfold insert_on_conflict.
  destruct (t !! etid r); by rewrite lookup_insert_ne.
Qed.

(** What a later upsert of a stored key leaves in the row: seven columns
    come from the new record whatever they hold, four only when the new
    value is not NULL. *)
Lemma insert_on_conflict_merge r ts t old :
  t !! etid r = Some old ->
  exists new, insert_on_conflict r ts t !! etid r = Some new /\
    col_country new = country r /\
    col_decision_date new = decision_date r /\
    col_amount_eur new = bind_real (amount_eur r) /\
    col_controller_or_processor new = controller_or_processor r /\
    col_quoted_articles new = quoted_articles r /\
    col_type new = type_ r /\
    col_scraped_at new = Some ts /\
    col_authority new = COALESCE (authority r) (col_authority old) /\
    col_summary new = COALESCE (summary r) (col_summary old) /\
    col_source_url new = COALESCE (source_url r) (col_source_url old) /\
    col_direct_url new = COALESCE (direct_url r) (col_direct_url old).
Proof.
  intros Hold. eexists. rewrite insert_on_conflict_lookup, Hold.
  split; [reflexivity|]. by repeat split.
Qed.

Lemma execute_all_spec f ts rows : forall i con,
  exists con', disk con' = disk con /\
    ((existsb (execute_fails f) (seq i (length rows)) = true /\
      execute_all f ts i rows con = (Raise SqliteError, con')) \/
     (existsb (execute_fails f) (seq i (length rows)) = false /\
      execute_all f ts i rows con = (Ok tt, con') /\
      current con' = apply_batch ts rows (current con))).
Proof.
  induction rows as [|r rows IH]; intros i con; simpl.
  - exists con. split; [done|]. right. by repeat split.
  - unfold execute. destruct (execute_fails f i) eqn:Ef; simpl.
    + exists con. split; [done|]. by left.
    + set (con1 := {| disk := disk con;
                      txn := Some (insert_on_conflict r ts (current con)) |}).
      destruct (IH (S i) con1) as (con' & Hdisk & Hcases).
      exists con'. split; [done|].
      destruct Hcases as [[Hex Hrun] | (Hex & Hrun & Hcur)]; [by left|].
      right. by repeat split.
Qed.

(** What [upsert_rows] returns and leaves in the database. *)
Lemma upsert_rows_outcome f ts rows db :
  upsert_rows f ts rows db =
    if faulty f (length rows) then (Raise SqliteError, db)
    else (Ok tt, apply_batch ts rows db).
Proof.
  unfold upsert_rows, faulty.
  destruct (execute_all_spec f ts rows 0 (connect db))
    as (con' & Hdisk & [[Hex Hrun] | (Hex & Hrun & Hcur)]);
    rewrite Hrun, Hex; simpl.
  - unfold close. by rewrite Hdisk.
  - unfold commit, close. destruct (commit_fails f); simpl.
    + by rewrite Hdisk.
    + by rewrite Hcur.
Qed.

(** A failure in the middle of a batch: the first row was written inside
    the transaction, the second [execute] fails, nothing is kept. *)
Example upsert_rows_fails_midway r1 r2 r3 ts db :
  upsert_rows {| execute_fails := fun i => bool_decide (i = 1%nat);
                 commit_fails := false |} ts [r1; r2; r3] db
  = (Raise SqliteError, db).
Proof. by rewrite upsert_rows_outcome. Qed.


End StoreFacts.

(** ** The header map *)

Section HeaderFacts.
Context `{Builtins}.
Implicit Types (lab : pystr) (key : string) (labels : list pystr).

Lemma find_Some_split {A} (f : A -> bool) (l : list A) (x : A) :
  List.find f l = Some x <->
  exists pre post, l = pre ++ x :: post /\ f x = true /\
                   Forall (fun y => f y = false) pre.
Proof.
  split.
  - induction l as [|a l IH]; simpl; [done|].
    destruct (f a) eqn:Fa.
    + intros [= ->]. by exists [], l.
    + intros Hx. destruct (IH Hx) as (pre & post & -> & Fx & Hpre).
      exists (a :: pre), post. repeat split; [done|]. by constructor.
  - intros (pre & post & -> & Fx & Hpre).
    induction Hpre as [|a pre Fa _ IH]; simpl.
    + by rewrite Fx.
    + by rewrite Fa.
Qed.

Lemma last_split {A} (f : A -> bool) (l : list A) :
  Forall (fun y => f y = false) l \/
  exists pre x post, l = pre ++ x :: post /\ f x = true /\
                     Forall (fun y => f y = false) post.
Proof.
  induction l as [|a l [IH | (pre & x & post & -> & Fx & Hpost)]].
  - by left.
  - destruct (f a) eqn:Fa.
    + right. by exists [], a, l.
    + left. by constructor.
  - right. by exists (a :: pre), x, post.
Qed.

Lemma key_of_label_spec lab key :
  key_of_label lab = Some key <-> goes_to lab key.
Proof.
  unfold key_of_label, goes_to. split.
  - destruct (List.find _ keys) as [[k pats]|] eqn:E; [|done].
    intros [= <-]. apply find_Some_split in E as (pre & post & E & Hx & Hpre).
    by exists pre, pats, post.
  - intros (pre & pats & post & E & Hx & Hpre).
    assert (Hfind : List.find (fun kp => any_in kp.2 lab) keys = Some (key, pats)).
    { apply find_Some_split. by exists pre, post. }
    by rewrite Hfind.
Qed.

Lemma header_loop_none labels : forall idx hm key,
  Forall (fun lab => key_of_label lab <> Some key) labels ->
  header_loop idx labels hm !! key = hm !! key.
Proof.
  induction labels as [|lab labels IH]; intros idx hm key Hall; simpl; [done|].
  inversion Hall as [|? ? Hlab Hrest]; subst.
  rewrite IH by done.
  destruct (key_of_label lab) as [k|]; [|done].
  apply lookup_insert_ne. congruence.
Qed.

Lemma header_loop_last pre : forall idx hm lab post key,
  key_of_label lab = Some key ->
  Forall (fun lab' => key_of_label lab' <> Some key) post ->
  header_loop idx (pre ++ lab :: post) hm !! key = Some (Some (idx + length pre)%nat).
Proof.
  induction pre as [|a pre IH]; intros idx hm lab post key Hlab Hpost; simpl.
  - rewrite Hlab, header_loop_none by done.
    rewrite lookup_insert_eq. do 2 f_equal. lia.
  - rewrite (IH _ _ _ _ _ Hlab Hpost). do 2 f_equal. lia.
Qed.

Lemma header_map_init_lookup key :
  key ∈ map fst keys -> header_map_init !! key = Some None.
Proof.
  intros Hk. simpl in Hk.
  repeat (apply elem_of_cons in Hk as [-> | Hk]; [reflexivity|]).
  by apply elem_of_nil in Hk.
Qed.

(** The headers of the registry, in their usual order. *)
Example build_header_map_std :
  map (fun key => @build_header_map Sim.builtins Sim.std_headers !! key)
      (map fst keys)
  = map (fun i => Some (Some i)) (seq 1 8).
Proof. vm_compute. reflexivity. Qed.

(** C2 as stated fails: for the headers "Type" and "Source type", the
    first header that contains "type" is column 0 and the first that
    contains "source" is column 1, but the map gives column 1 to [type]
    and nothing to [source]. *)
Lemma build_header_map_not_first :
  let ths := [py "Type"; py "Source type"] in
  let labels := map (@header_label Sim.builtins) ths in
  @build_header_map Sim.builtins ths !! "type"%string = Some (Some 1%nat) /\
  first_header_index 0 [py "type"] labels = Some 0%nat /\
  @build_header_map Sim.builtins ths !! "source"%string = Some None /\
  first_header_index 0 [py "source"] labels = Some 1%nat /\
  @build_header_map Sim.builtins ths !! "type"%string
    <> Some (first_header_index 0 [py "type"] labels).
Proof. repeat split; try reflexivity. vm_compute. discriminate. Qed.

(** C2, amended: each logical key gets the column index of the last
    header cell, in document order, whose normalised text contains one of
    the key's candidates and none of the candidates of a key listed
    before it; a key that no header cell goes to is mapped to absent. *)
Theorem build_header_map_last_wins (ths : list pystr) (key : string) :
  key ∈ map fst keys ->
  let labels := map header_label ths in
  (exists i lab,
      build_header_map ths !! key = Some (Some i) /\
      labels !! i = Some lab /\ goes_to lab key /\
      forall j lab', (i < j)%nat -> labels !! j = Some lab' -> ~ goes_to lab' key)
  \/ (build_header_map ths !! key = Some None /\
      forall lab, lab ∈ labels -> ~ goes_to lab key).
Proof.
  intros Hkey labels. unfold build_header_map. fold labels.
  destruct (last_split (fun lab => bool_decide (key_of_label lab = Some key)) labels)
    as [Hnone | (pre & lab & post & E & Hlab & Hpost)].
  - right. split.
    + rewrite header_loop_none; [by apply header_map_init_lookup|].
      eapply Forall_impl; [exact Hnone|]. intros lab Hf.
      by apply bool_decide_eq_false in Hf.
    + intros lab Hin Hgo. apply key_of_label_spec in Hgo.
      rewrite Forall_forall in Hnone. specialize (Hnone lab Hin).
      by apply bool_decide_eq_false in Hnone.
  - left. apply bool_decide_eq_true in Hlab.
    assert (Hpost' : Forall (fun lab' => key_of_label lab' <> Some key) post).
    { eapply Forall_impl; [exact Hpost|]. intros lab' Hf.
      by apply bool_decide_eq_false in Hf. }
    exists (length pre), lab. rewrite E. repeat split.
    + by rewrite header_loop_last.
    + by rewrite list_lookup_middle.
    + by apply key_of_label_spec.
    + intros j lab' Hj Hlook Hgo. apply key_of_label_spec in Hgo.
      rewrite lookup_app_r in Hlook by lia.
      destruct (j - length pre)%nat as [|n] eqn:En; [lia|]. simpl in Hlook.
      rewrite Forall_forall in Hpost'.
      apply (Hpost' lab'); [|done]. by eapply list_elem_of_lookup_2.
Qed.

End HeaderFacts.

Lemma build_header_map_last_wins_witness :
  exists i lab,
    @build_header_map Sim.builtins [py "Type"; py "Source type"] !! "type"%string
      = Some (Some i) /\
    map (@header_label Sim.builtins) [py "Type"; py "Source type"] !! i = Some lab /\
    goes_to lab "type".
Proof.
  destruct (@build_header_map_last_wins Sim.builtins
              [py "Type"; py "Source type"] "type"%string)
    as [(i & lab & Hm & Hl & Hg & _) | [Hm _]].
  - vm_compute. do 6 right. left.
  - by exists i, lab.
  - vm_compute in Hm. discriminate.
Defined.

(** ** One page's pass *)

Section BatchFacts.
Implicit Types (r : row) (rs : list row) (seen : gset pystr) (k : pystr).

Lemma keep_true r seen :
  keep r seen = true <-> etid r <> [] /\ (etid r ∉ seen).
Proof.
  unfold keep. rewrite andb_true_iff, negb_true_iff, bool_decide_eq_false.
  enough (truthy (etid r) = true <-> etid r <> []) by tauto.
  by destruct (etid r).
Qed.

Lemma seen_add_iff k k' seen : k ∈ {[k']} ∪ seen <-> k = k' \/ k ∈ seen.
Proof. by rewrite elem_of_union, elem_of_singleton. Qed.

(** A row whose key text is empty leaves the batch as it is. *)
Lemma add_row_empty_key r acc : etid r = [] -> add_row r acc = acc.
Proof. intros E. unfold add_row, keep. by rewrite E. Qed.

Lemma fold_rows_inv rs : forall acc,
  acc.1 ⊆ (fold_rows rs acc).1 /\
  exists new, (fold_rows rs acc).2 = acc.2 ++ new /\
    NoDup (map etid new) /\
    Forall (fun r => etid r <> [] /\ (etid r ∉ acc.1) /\
                     (etid r ∈ (fold_rows rs acc).1)) new.
Proof.
  induction rs as [|r rs IH]; intros acc.
  - split; [done|]. exists []. rewrite app_nil_r. repeat split; constructor.
  - change (fold_rows (r :: rs) acc) with (fold_rows rs (add_row r acc)).
    destruct (IH (add_row r acc)) as (Hsub & new & Hnew & Hnd & Hall).
    unfold add_row in *. destruct (keep r acc.1) eqn:Hkeep; simpl in *.
    + apply keep_true in Hkeep as [Hne Hnotin].
      split; [intros x Hx; apply Hsub, seen_add_iff; by right|].
      exists (r :: new). rewrite Hnew, <- app_assoc. split; [done|].
      rewrite Forall_forall in Hall. split.
      * simpl. constructor; [|done].
        rewrite list_elem_of_fmap. intros (r' & Er & Hr').
        destruct (Hall r' Hr') as (_ & Hnot & _).
        apply Hnot, seen_add_iff. by left.
      * constructor.
        -- repeat split; [done..|]. apply Hsub, seen_add_iff. by left.
        -- apply Forall_forall. intros r' Hr'.
           destruct (Hall r' Hr') as (? & Hnot & ?). repeat split; [done| |done].
           intros Hin. apply Hnot, seen_add_iff. by right.
    + split; [done|]. by exists new.
Qed.



End BatchFacts.

Section ScanFacts.
Context `{Builtins} {P : Type} `{Browser P} `{Host}.
Implicit Types (hm : gmap string (option nat)) (p : P) (seen : gset pystr).

Lemma scan_loop_fold fuel : forall hm idx acc p,
  scan_loop fuel hm idx acc p =
    outcome_map (fun rs => fold_rows rs acc) (scanned_rows fuel hm idx p).
Proof.
  induction fuel as [|fuel IH]; intros hm idx acc p; simpl; [done|].
  destruct (_ || _); [done|].
  destruct (rows p !! idx) as [tr|]; [|done].
  destruct (is_child tr); [apply IH|].
  destruct (_ =? _)%nat; [apply IH|].
  destruct (child_of _ idx) as [child step].
  destruct (assemble _ _ _ _) as [r| |]; [|done..].
  rewrite IH. by destruct (scanned_rows _ _ _ _) as [[rs| |] p'].
Qed.

Lemma scan_page_fold hm seen p :
  scan_page hm seen p =
    outcome_map (fun rs => fold_rows rs (seen, [])) (scanned_page hm p).
Proof. apply scan_loop_fold. Qed.

Lemma scan_page_inv hm seen p seen' batch p' :
  scan_page hm seen p = (Ok (seen', batch), p') ->
  seen ⊆ seen' /\ NoDup (map etid batch) /\
  Forall (fun r => etid r <> [] /\ (etid r ∉ seen) /\ (etid r ∈ seen')) batch.
Proof.
  rewrite scan_page_fold.
  destruct (scanned_page hm p) as [[rs| |] p1]; simpl; [|done..].
  intros [= E <-].
  destruct (fold_rows_inv rs (seen, [])) as (Hsub & new & Hnew & Hnd & Hall).
  rewrite E in *. simpl in *. by subst.
Qed.


Lemma log_ok_snoc seen seen' log batch :
  log_ok seen log -> seen ⊆ seen' -> NoDup (map etid batch) ->
  Forall (fun r => etid r <> [] /\ (etid r ∉ seen) /\ (etid r ∈ seen')) batch ->
  log_ok seen' (log ++ [batch]).
Proof.
  intros (Hnd & Hin & Hne) Hsub Hb Hall. rewrite Forall_forall in Hall.
  unfold log_ok. rewrite concat_app. simpl. rewrite app_nil_r.
  repeat split.
  - rewrite map_app. apply NoDup_app. repeat split; [done| |done].
    intros k Hk1 Hk2.
    apply list_elem_of_fmap in Hk1 as (r1 & -> & Hr1).
    apply list_elem_of_fmap in Hk2 as (r2 & E & Hr2).
    destruct (Hall r2 Hr2) as (_ & Hnot & _). apply Hnot.
    rewrite <- E. by apply Hin.
  - intros r Hr. apply elem_of_app in Hr as [Hr | Hr].
    + apply Hsub. by apply Hin.
    + by destruct (Hall r Hr) as (_ & _ & ?).
  - apply Forall_app. split; [done|]. constructor; [|constructor].
    apply Forall_forall. intros r Hr. by destruct (Hall r Hr).
Qed.

Lemma log_ok_mono seen seen' log :
  log_ok seen log -> seen ⊆ seen' -> log_ok seen' log.
Proof.
  intros (? & Hin & ?) Hsub. repeat split; [done| |done].
  intros r Hr. by apply Hsub, Hin.
Qed.

Lemma page_loop_log fuel : forall max_pages page_index seen hm total w,
  log_ok seen (upserts w) ->
  exists seen', log_ok seen' (upserts (page_loop fuel max_pages page_index seen hm total w).2).
Proof.
  induction fuel as [|fuel IH]; intros max_pages page_index seen hm total w Hlog;
    simpl; [by exists seen|].
  destruct (scan_page hm seen (page w)) as [[[seen' batch]|e|] p1] eqn:Hscan;
    simpl; [|by exists seen..].
  apply scan_page_inv in Hscan as (Hsub & Hnd & Hall).
  assert (Hlog1 : log_ok seen' (upserts w)) by by apply (log_ok_mono seen).
  assert (Hlog2 : log_ok seen' (upserts w ++ [batch])) by by apply (log_ok_snoc seen).
  destruct batch as [|r batch].
  - destruct (advance hm p1) as [[moved hm'] p2].
    destruct (_ || _); simpl; [by exists seen'|]. by apply IH.
  - destruct (upsert_rows _ _ _ _) as [res db1].
    destruct res as [[]|e|]; simpl; [|by exists seen'..].
    destruct (advance hm p1) as [[moved hm'] p2].
    destruct (_ || _); simpl; [by exists seen'|]. by apply IH.
Qed.

Lemma run_log fuel max_pages p0 db0 :
  exists seen, log_ok seen (upserts (run fuel max_pages p0 db0).2).
Proof.
  apply page_loop_log. simpl. repeat split; [constructor| |constructor].
  intros r Hr. by apply elem_of_nil in Hr.
Qed.

(** C4, amended: duplicate detection works across the whole run. No key
    is ever in two batches handed to [upsert_rows], on one page or on two:
    a key met on an earlier page is left out of every later batch and is
    not upserted again. *)
Theorem run_upserts_each_key_once fuel max_pages p0 db0 :
  NoDup (map etid (concat (upserts (run fuel max_pages p0 db0).2))).
Proof. by destruct (run_log fuel max_pages p0 db0) as (seen & ? & _). Qed.

(** C10: every record of every batch handed to [upsert_rows] has a
    non-empty key, and a row whose key text comes out empty adds nothing
    to the batch and to the keys seen, without any error. *)
Theorem run_upserts_nonempty_keys fuel max_pages p0 db0 :
  Forall (Forall (fun r => etid r <> []))
         (upserts (run fuel max_pages p0 db0).2) /\
  (forall r acc, etid r = [] -> add_row r acc = acc).
Proof.
  split; [|apply add_row_empty_key].
  by destruct (run_log fuel max_pages p0 db0) as (seen & _ & _ & ?).
Qed.

End ScanFacts.

(** ** The page loop *)

Section PaginationFacts.
Context `{Builtins} {P : Type} `{Browser P} `{Host}.
Implicit Types (hm : gmap string (option nat)) (p : P) (seen : gset pystr).




Lemma bind_returns {A B} (m : outcome A) (f : A -> outcome B) :
  m <> OutOfFuel -> (forall a, f a <> OutOfFuel) -> m ≫= f <> OutOfFuel.
Proof. intros Hm Hf. destruct m; [apply Hf | done | done]. Qed.

Lemma safe_text_returns hm td_count tr key :
  safe_text hm td_count tr key <> OutOfFuel.
Proof.
  unfold safe_text. destruct (header_get hm key); [|done].
  destruct (_ <=? _)%nat; [done|]. by destruct (_ ≫= _).
Qed.

Lemma assemble_returns hm td_count tr child :
  assemble hm td_count tr child <> OutOfFuel.
Proof.
  unfold assemble.
  repeat (apply bind_returns; [apply safe_text_returns | intros ?]).
  done.
Qed.

Lemma scan_loop_unfold fuel hm idx acc p :
  scan_loop (S fuel) hm idx acc p =
    let count := length (rows p) in
    if (count <=? idx)%nat || (count =? 0)%nat then (Ok acc, p)
    else
      match rows p !! idx with
      | None => (Ok acc, p)
      | Some tr =>
          if is_child tr then scan_loop fuel hm (S idx) acc p
          else
            let td_count := length (tr_cells tr) in
            if (td_count =? 0)%nat then scan_loop fuel hm (S idx) acc p
            else
              let p' := click_first_cell idx p in
              let '(child, step) := child_of (rows p') idx in
              match assemble hm td_count (rows p' !! idx) child with
              | Ok r => scan_loop fuel hm (idx + step) (add_row r acc) p'
              | Raise e => (Raise e, p')
              | OutOfFuel => (OutOfFuel, p')
              end
      end.
Proof. reflexivity. Qed.

Lemma page_loop_unfold fuel max_pages page_index seen hm total w :
  page_loop (S fuel) max_pages page_index seen hm total w =
    match scan_page hm seen (page w) with
    | (Ok (seen', batch), p1) =>
        let '(res, db1, log1) :=
          match batch with
          | [] => (Ok tt, db w, upserts w)
          | _ =>
              let '(res, db1) :=
                upsert_rows (db_faults (S page_index)) (utcnow (S page_index))
                            batch (db w) in
              (res, db1, upserts w ++ [batch])
          end in
        match res with
        | Ok _ =>
            let '(moved, hm', p2) := advance hm p1 in
            let w' := {| page := p2; db := db1; upserts := log1 |} in
            if negb moved || cap_reached max_pages (S page_index)
            then (Ok (total + length batch)%nat, w')
            else page_loop fuel max_pages (S page_index) seen' hm'
                           (total + length batch)%nat w'
        | Raise e => (Raise e, {| page := p1; db := db1; upserts := log1 |})
        | OutOfFuel => (OutOfFuel, {| page := p1; db := db1; upserts := log1 |})
        end
    | (Raise e, p1) => (Raise e, {| page := p1; db := db w; upserts := upserts w |})
    | (OutOfFuel, p1) => (OutOfFuel, {| page := p1; db := db w; upserts := upserts w |})
    end.
Proof. reflexivity. Qed.


(** On a page where a click shows at most the child row of the clicked
    row, the pass over the page always comes to an end. *)
Lemma scan_loop_returns fuel : forall hm idx acc p,
  click_shows_child ->
  (length (rows p) - idx < fuel)%nat ->
  (scan_loop fuel hm idx acc p).1 <> OutOfFuel.
Proof.
  induction fuel as [|fuel IH]; intros hm idx acc p Hclick Hfuel; [lia|].
  rewrite scan_loop_unfold. cbv zeta.
  destruct (_ || _) eqn:Hend; [done|].
  apply orb_false_iff in Hend as [Hidx _]. apply Nat.leb_gt in Hidx.
  destruct (rows p !! idx) as [tr|]; [|done].
  destruct (is_child tr); [apply IH; [done | lia]|].
  destruct (_ =? _)%nat; [apply IH; [done | lia]|].
  destruct (Hclick idx p) as [Hlen Hgrow].
  destruct (child_of (rows (click_first_cell idx p)) idx) as [child step] eqn:Hchild.
  assert (Hstep : (length (rows (click_first_cell idx p)) - (idx + step)
                   < fuel)%nat).
  { unfold child_of in Hchild.
    destruct (decide (length (rows (click_first_cell idx p))
                      = S (length (rows p)))) as [Hg | Hg].
    - destruct (Hgrow Hg) as (tr' & Htr' & Hc).
      replace (idx + 1)%nat with (S idx) in Hchild by lia.
      rewrite Htr', Hc in Hchild.
      destruct (_ <? _)%nat eqn:Hlt in Hchild.
      + injection Hchild as _ <-. lia.
      + apply Nat.ltb_ge in Hlt. lia.
    - assert (step = 1 \/ step = 2)%nat as [-> | ->]; [|lia..].
      destruct (_ <? _)%nat in Hchild; [|injection Hchild; auto].
      destruct (_ !! _) in Hchild; [|injection Hchild; auto].
      destruct (is_child _) in Hchild; injection Hchild; auto. }
  pose proof (assemble_returns hm (length (tr_cells tr))
                (rows (click_first_cell idx p) !! idx) child) as Hasm.
  destruct (assemble _ _ _ _) as [r| |]; [by apply IH | done | done].
Qed.

Lemma scan_page_returns hm seen p :
  click_shows_child -> (scan_page hm seen p).1 <> OutOfFuel.
Proof. intros Hclick. apply scan_loop_returns; [done | lia]. Qed.

(** With a page cap [n > 0], [n] rounds of the loop are enough: the crawl
    ends with a result or an exception. *)
Lemma page_loop_capped fuel : forall n page_index seen hm total w,
  click_shows_child ->
  (0 < n)%Z -> (n - Z.of_nat page_index <= Z.of_nat fuel)%Z ->
  (page_index < Z.to_nat n)%nat ->
  (page_loop fuel (Some n) page_index seen hm total w).1 <> OutOfFuel.
Proof.
  induction fuel as [|fuel IH]; intros n page_index seen hm total w Hclick Hn Hfuel Hpi;
    [lia|].
  rewrite page_loop_unfold.
  pose proof (scan_page_returns hm seen (page w) Hclick) as Hscan.
  destruct (scan_page hm seen (page w)) as [[[seen' batch]|e|] p1]; [|done..].
  assert (Hnext : forall hm' total' w',
            (let '(moved, hm2, p2) := advance hm' p1 in
             if negb moved || cap_reached (Some n) (S page_index)
             then (Ok total', w' p2)
             else page_loop fuel (Some n) (S page_index) seen' hm2 total' (w' p2)).1
            <> OutOfFuel).
  { intros hm' total' w'. destruct (advance hm' p1) as [[moved hm2] p2].
    destruct (negb moved || cap_reached (Some n) (S page_index)) eqn:Hstop; [done|].
    apply orb_false_iff in Hstop as [_ Hcap]. unfold cap_reached in Hcap.
    apply andb_false_iff in Hcap as [Hcap | Hcap].
    - apply negb_false_iff, Z.eqb_eq in Hcap. lia.
    - apply Z.leb_gt in Hcap. apply IH; [done | lia..]. }
  destruct batch as [|r batch].
  - apply (Hnext hm _ (fun p2 => {| page := p2; db := db w; upserts := upserts w |})).
  - rewrite upsert_rows_outcome. destruct (faulty _ _); [done|].
    apply (Hnext hm _ (fun p2 => {| page := p2; db := _; upserts := _ |})).
Qed.

End PaginationFacts.

(** ** The crawl on the sample table *)

Import Sim.

Section SimFacts.

Lemma click_entries_rows es : forall idx,
  (length (flat_map entry_rows (click_entries idx es))
     <= S (length (flat_map entry_rows es)))%nat /\
  (length (flat_map entry_rows (click_entries idx es))
     = S (length (flat_map entry_rows es)) ->
   exists tr, flat_map entry_rows (click_entries idx es) !! S idx = Some tr /\
              is_child tr = true).
Proof.
  induction es as [|e es IH]; intros idx.
  - simpl. split; [lia | intros Hl; exfalso; lia].
  - destruct idx as [|k].
    + change (click_entries 0 (e :: es)) with (toggle e :: es).
      change (flat_map entry_rows (toggle e :: es))
        with (entry_rows (toggle e) ++ flat_map entry_rows es).
      change (flat_map entry_rows (e :: es))
        with (entry_rows e ++ flat_map entry_rows es).
      destruct e as [row [d|] [|]]; unfold entry_rows, toggle; simpl;
        (split; [lia|]); intros Hlen; try (exfalso; lia).
      exists (child_tr d). split; reflexivity.
    + change (click_entries (S k) (e :: es)) with
        (if (S k <? length (entry_rows e))%nat then e :: es
         else e :: click_entries (S k - length (entry_rows e)) es).
      destruct (S k <? length (entry_rows e))%nat eqn:Hlt.
      * split; [lia | intros Hl; exfalso; lia].
      * apply Nat.ltb_ge in Hlt.
        destruct (IH (S k - length (entry_rows e))%nat) as [Hle Hgrow].
        change (flat_map entry_rows (e :: ?l))
          with (entry_rows e ++ flat_map entry_rows l).
        rewrite !length_app. split; [lia|]. intros Hlen.
        destruct Hgrow as (tr & Htr & Hc); [lia|].
        exists tr. split; [|done].
        rewrite lookup_app_r by lia. rewrite <- Htr. f_equal. lia.
Qed.

(** The sample table follows the rule on clicks. *)
Lemma sim_click_shows_child : click_shows_child (P := site).
Proof. intros idx p. apply click_entries_rows. Qed.

(** The spec's end-to-end example: headers in the usual order, one row
    with its detail panel. *)
Example run_first_visit :
  upserts (run 1 None site_first_visit ∅).2 = [[row_first_visit]].
Proof. vm_compute. reflexivity. Qed.

(** C1: the code at the failing input. A fine is stored with authority
    "LDA" on a first visit; on a later visit its detail panel is missing,
    so the crawl hands over the same key with authority "" (not None) and
    country "France". [COALESCE] keeps a stored value only against NULL:
    the stored authority and summary are wiped, where the claim says they
    are retained; the country is overwritten as the claim says. *)
Theorem upsert_empty_authority_overwrites :
  let ts := py "2024-01-01T00:00:00+00:00" in
  let db1 := (upsert_rows no_faults ts [row_first_visit] ∅).2 in
  let db2 := (upsert_rows no_faults ts [row_second_visit] db1).2 in
  upserts (run 1 None site_second_visit db1).2 = [[row_second_visit]] /\
  col_authority <$> db1 !! py "DE-001" = Some (Some (py "LDA")) /\
  col_authority <$> db2 !! py "DE-001" = Some (Some []) /\
  col_summary <$> db2 !! py "DE-001" = Some (Some []) /\
  col_country <$> db2 !! py "DE-001" = Some (Some (py "France")).
Proof. vm_compute. repeat split; reflexivity. Qed.


(** C4 as stated fails: the key "DE-001" is on two pages; the second
    page's record (country "France") is in no batch, [upsert_rows] is
    called once, and the store keeps the first page's values. *)
Lemma run_skips_key_on_later_page :
  let res := run 3 None site_two_pages ∅ in
  res.1 = Ok 1%nat /\
  upserts res.2 = [[row_first_visit]] /\
  col_country <$> db res.2 !! py "DE-001" = Some (Some (py "Germany")).
Proof. vm_compute. repeat split; reflexivity. Qed.

End SimFacts.



(** ** More on the store *)

Section UpsertFacts.
Implicit Types (r : row) (t : table) (f : fault_plan) (k ts : pystr).

Lemma insert_on_conflict_upserted r ts t :
  insert_on_conflict r ts t !! etid r = Some (upserted (t !! etid r) r ts).
Proof. rewrite insert_on_conflict_lookup. by destruct (t !! etid r). Qed.

Lemma apply_batch_other ts rows : forall t k,
  k ∉ map etid rows -> apply_batch ts rows t !! k = t !! k.
Proof.
  induction rows as [|r rows IH]; intros t k Hk; [done|].
  change (apply_batch ts (r :: rows) t)
    with (apply_batch ts rows (insert_on_conflict r ts t)).
  simpl in Hk. apply not_elem_of_cons in Hk as [Hne Hk].
  rewrite IH by done. by apply insert_on_conflict_other.
Qed.

Lemma apply_batch_lookup ts rows : forall t r,
  NoDup (map etid rows) -> r ∈ rows ->
  apply_batch ts rows t !! etid r = Some (upserted (t !! etid r) r ts).
Proof.
  induction rows as [|r0 rows IH]; intros t r Hnd Hr.
  - by apply elem_of_nil in Hr.
  - change (apply_batch ts (r0 :: rows) t)
      with (apply_batch ts rows (insert_on_conflict r0 ts t)).
    simpl in Hnd. apply NoDup_cons in Hnd as [Hnotin Hnd].
    apply elem_of_cons in Hr as [-> | Hr].
    + rewrite apply_batch_other by done. apply insert_on_conflict_upserted.
    + rewrite IH by done. f_equal. f_equal.
      apply insert_on_conflict_other. intros E. apply Hnotin.
      rewrite <- E. apply list_elem_of_fmap. by exists r.
Qed.

Lemma apply_batch_kept ts rows : forall t k old,
  t !! k = Some old ->
  exists new, apply_batch ts rows t !! k = Some new /\ keeps_enrichment old new.
Proof.
  induction rows as [|r rows IH]; intros t k old Hold.
  - exists old. split; [done|]. by repeat split.
  - change (apply_batch ts (r :: rows) t)
      with (apply_batch ts rows (insert_on_conflict r ts t)).
    assert (Hmid : exists mid, insert_on_conflict r ts t !! k = Some mid /\
                               keeps_enrichment old mid).
    { destruct (decide (k = etid r)) as [-> | Hne].
      - rewrite insert_on_conflict_lookup, Hold. eexists. split; [done|].
        destruct old as [? a ? ? ? ? ? s su du ?]; simpl.
        repeat split; simpl; intros [x ->];
          match goal with |- is_Some (COALESCE ?y _) => by destruct y end.
      - rewrite insert_on_conflict_other by done.
        exists old. split; [done|]. by repeat split. }
    destruct Hmid as (mid & Hmid & Hk1).
    destruct (IH _ _ _ Hmid) as (new & Hnew & Hk2).
    exists new. split; [done|].
    destruct Hk1 as (?&?&?&?), Hk2 as (?&?&?&?). repeat split; auto.
Qed.

(** X1: after an [upsert_rows] without a failing call, on a batch whose
    keys are distinct, every record of the batch is stored under its key,
    merged with what was stored there before, and every other key holds
    what it held. *)
Theorem upsert_rows_lookup f ts rows db :
  NoDup (map etid rows) ->
  faulty f (length rows) = false ->
  (forall r, r ∈ rows ->
     (upsert_rows f ts rows db).2 !! etid r
       = Some (upserted (db !! etid r) r ts)) /\
  (forall k, k ∉ map etid rows ->
     (upsert_rows f ts rows db).2 !! k = db !! k).
Proof.
  intros Hnd Hok. rewrite upsert_rows_outcome, Hok. simpl. split.
  - intros r Hr. by apply apply_batch_lookup.
  - intros k Hk. by apply apply_batch_other.
Qed.

Lemma do_update_again o r ts1 ts2 :
  do_update (upserted o r ts1) (excluded r ts2) = touch ts2 (upserted o r ts1).
Proof.
  destruct r as [k c a d am cp q ty s su du].
  destruct o as [[? oa ? ? ? ? ? os osu odu ?]|];
    unfold touch, upserted, do_update, excluded; simpl;
    f_equal; (by destruct a) || (by destruct s) || (by destruct su)
             || (by destruct du) || done.
Qed.

(** X2: upserting the same batch (distinct keys) once more, at a later
    time, changes nothing in the database but the time of scraping of the
    rows of the batch. *)
Theorem upsert_rows_again ts1 ts2 rows db k :
  NoDup (map etid rows) ->
  let db1 := (upsert_rows no_faults ts1 rows db).2 in
  let db2 := (upsert_rows no_faults ts2 rows db1).2 in
  db2 !! k = if bool_decide (k ∈ map etid rows) then touch ts2 <$> db1 !! k
             else db1 !! k.
Proof.
  intros Hnd db1 db2. subst db1 db2.
  assert (Hok : faulty no_faults (length rows) = false).
  { unfold faulty. simpl. rewrite orb_false_r.
    apply not_true_is_false. intros Hex.
    apply existsb_exists in Hex as (? & _ & ?). done. }
  rewrite !upsert_rows_outcome, Hok. simpl.
  destruct (bool_decide (k ∈ map etid rows)) eqn:Hk.
  - apply bool_decide_eq_true in Hk.
    apply list_elem_of_fmap in Hk as (r & -> & Hr).
    rewrite !apply_batch_lookup by done. simpl. f_equal.
    apply do_update_again.
  - apply bool_decide_eq_false in Hk. by rewrite apply_batch_other.
Qed.

(** X3: whatever the batch and whichever calls fail, [upsert_rows] never
    removes a stored key and never turns a stored value of [authority],
    [summary], [source_url] or [direct_url] into NULL. *)
Theorem upsert_rows_keeps_enrichment f ts rows db k old :
  db !! k = Some old ->
  exists new, (upsert_rows f ts rows db).2 !! k = Some new /\
              keeps_enrichment old new.
Proof.
  intros Hold. rewrite upsert_rows_outcome.
  destruct (faulty f (length rows)); simpl.
  - exists old. split; [done|]. by repeat split.
  - by apply apply_batch_kept.
Qed.

End UpsertFacts.

(** ** More on the run *)

Section RunFacts.
Context `{Builtins} {P : Type} `{Browser P} `{Host}.
Implicit Types (hm : gmap string (option nat)) (p : P) (seen : gset pystr)
  (w : @world P) (log : list (list row)) (tss : list pystr).

Lemma bind_raise {A B} (m : outcome A) (f : A -> outcome B) e e0 :
  (m = Raise e -> e = e0) ->
  (forall a, f a = Raise e -> e = e0) ->
  m ≫= f = Raise e -> e = e0.
Proof. intros Hm Hf. destruct m; simpl; [apply Hf | by intros [= ->]; apply Hm | done]. Qed.

Lemma safe_text_raise hm td_count tr key e :
  safe_text hm td_count tr key = Raise e -> e = PlaywrightError.
Proof.
  unfold safe_text. destruct (header_get hm key); [|done].
  destruct (_ <=? _)%nat; [done|]. destruct (_ ≫= _); [done|]. by intros [= <-].
Qed.

Lemma assemble_raise hm td_count tr child e :
  assemble hm td_count tr child = Raise e -> e = PlaywrightError.
Proof.
  unfold assemble.
  repeat (apply bind_raise; [apply safe_text_raise | intros ?]).
  done.
Qed.

Lemma scan_loop_raise fuel : forall hm idx acc p e p',
  scan_loop fuel hm idx acc p = (Raise e, p') -> e = PlaywrightError.
Proof.
  induction fuel as [|fuel IH]; intros hm idx acc p e p'; [done|].
  rewrite scan_loop_unfold. cbv zeta.
  destruct (_ || _); [done|].
  destruct (rows p !! idx) as [tr|]; [|done].
  destruct (is_child tr); [apply IH|].
  destruct (_ =? _)%nat; [apply IH|].
  destruct (child_of _ idx) as [child step].
  destruct (assemble _ _ _ _) as [r|e'|] eqn:Hasm; [apply IH| |done].
  intros [= <- _]. by eapply assemble_raise.
Qed.

Lemma elem_of_concat {A} (x : A) (ls : list (list A)) :
  x ∈ concat ls <-> exists l, l ∈ ls /\ x ∈ l.
Proof.
  split.
  - intros Hx. apply list_elem_of_In, in_concat in Hx as (l & Hl & Hxl).
    exists l. split; by apply list_elem_of_In.
  - intros (l & Hl & Hxl). apply list_elem_of_In, in_concat.
    exists l. split; by apply list_elem_of_In.
Qed.

Lemma replay_snoc xs ts b t :
  replay (xs ++ [(ts, b)]) t = apply_batch ts b (replay xs t).
Proof. unfold replay. by rewrite fold_left_app. Qed.

Lemma replay_other xs : forall t k,
  k ∉ map etid (concat (map snd xs)) -> replay xs t !! k = t !! k.
Proof.
  induction xs as [|[ts b] xs IH]; intros t k Hk; [done|].
  simpl in Hk. rewrite map_app in Hk. apply not_elem_of_app in Hk as [Hb Hrest].
  change (replay ((ts, b) :: xs) t) with (replay xs (apply_batch ts b t)).
  rewrite IH by done. by apply apply_batch_other.
Qed.

Lemma replay_lookup xs : forall t ts b r,
  NoDup (map etid (concat (map snd xs))) ->
  (ts, b) ∈ xs -> r ∈ b ->
  replay xs t !! etid r = Some (upserted (t !! etid r) r ts).
Proof.
  induction xs as [|[ts0 b0] xs IH]; intros t ts b r Hnd Hin Hr.
  - by apply elem_of_nil in Hin.
  - simpl in Hnd. rewrite map_app in Hnd.
    apply NoDup_app in Hnd as (Hnd0 & Hdisj & Hndrest).
    change (replay ((ts0, b0) :: xs) t) with (replay xs (apply_batch ts0 b0 t)).
    apply elem_of_cons in Hin as [[= -> ->] | Hin].
    + rewrite replay_other.
      * by apply apply_batch_lookup.
      * apply Hdisj. apply list_elem_of_fmap. by exists r.
    + rewrite (IH _ ts b) by done. do 2 f_equal.
      apply apply_batch_other. intros Hk. apply (Hdisj _ Hk).
      apply list_elem_of_fmap. exists r. split; [done|].
      apply elem_of_concat. exists b. split; [|done].
      apply list_elem_of_fmap. by exists (ts, b).
Qed.

Lemma replay_kept xs : forall t k old,
  t !! k = Some old ->
  exists new, replay xs t !! k = Some new /\ keeps_enrichment old new.
Proof.
  induction xs as [|[ts b] xs IH]; intros t k old Hold.
  - exists old. split; [done|]. by repeat split.
  - change (replay ((ts, b) :: xs) t) with (replay xs (apply_batch ts b t)).
    destruct (apply_batch_kept ts b t k old Hold) as (mid & Hmid & Hk1).
    destruct (IH _ _ _ Hmid) as (new & Hnew & Hk2).
    exists new. split; [done|].
    destruct Hk1 as (?&?&?&?), Hk2 as (?&?&?&?). repeat split; auto.
Qed.

Lemma page_loop_replayed db0 fuel : forall max_pages page_index seen hm total w,
  replayed db0 (Ok 0%nat) w ->
  replayed db0 (page_loop fuel max_pages page_index seen hm total w).1
               (page_loop fuel max_pages page_index seen hm total w).2.
Proof.
  induction fuel as [|fuel IH]; intros max_pages page_index seen hm total w Hw;
    [done|].
  rewrite page_loop_unfold.
  destruct (scan_page hm seen (page w)) as [[[seen' batch]|e|] p1] eqn:Hscan;
    [| |done].
  2: { apply scan_loop_raise in Hscan as ->. done. }
  destruct batch as [|r batch].
  - cbv beta iota zeta. destruct (advance hm p1) as [[moved hm'] p2].
    destruct (_ || _); [done|]. by apply IH.
  - rewrite upsert_rows_outcome. destruct (faulty _ _).
    + cbv beta iota zeta. destruct Hw as (tss & Hlen & Hclock & Hdb).
      exists tss. simpl. by rewrite removelast_last.
    + cbv beta iota zeta.
      assert (Hw1 : forall p2, replayed db0 (Ok 0%nat)
                {| page := p2;
                   db := apply_batch (utcnow (S page_index)) (r :: batch) (db w);
                   upserts := upserts w ++ [r :: batch] |}).
      { intros p2. destruct Hw as (tss & Hlen & Hclock & Hdb). simpl in *.
        exists (tss ++ [utcnow (S page_index)]). simpl.
        rewrite !length_app, Hlen. split; [done|]. split.
        - apply Forall_app. split; [done|]. constructor; [|constructor]. by eexists.
        - rewrite zip_with_app by done. simpl. by rewrite replay_snoc, Hdb. }
      destruct (advance hm p1) as [[moved hm'] p2].
      destruct (_ || _); [apply Hw1|]. apply IH, Hw1.
Qed.

Lemma run_replayed fuel max_pages p0 db0 :
  replayed db0 (run fuel max_pages p0 db0).1 (run fuel max_pages p0 db0).2.
Proof. apply page_loop_replayed. by exists []. Qed.

Lemma committed_sub {A} (res : outcome A) log r :
  r ∈ concat (committed res log) -> r ∈ concat log.
Proof.
  destruct res as [|[]|]; simpl; try done.
  destruct (list_eq_nil_dec log) as [-> | Hne]; [done|].
  rewrite (app_removelast_last [] Hne) at 2.
  rewrite concat_app, elem_of_app. by left.
Qed.

Lemma zip_snd_eq {A B} (l1 : list A) (l2 : list B) :
  length l1 = length l2 -> map snd (zip l1 l2) = l2.
Proof. intros Hlen. apply snd_zip. lia. Qed.

(** X4: whatever way a run ends (a result, an exception, or more pages
    than the rounds given), the database is the starting one with the
    batches handed to [upsert_rows] applied in order, each as a whole; the
    batch on which [upsert_rows] failed, always the last one, is the only
    one left out. *)
Theorem run_database fuel max_pages p0 db0 :
  exists tss,
    length tss = length (committed (run fuel max_pages p0 db0).1
                                   (upserts (run fuel max_pages p0 db0).2)) /\
    Forall (fun ts => exists n, ts = utcnow n) tss /\
    db (run fuel max_pages p0 db0).2 =
      replay (zip tss (committed (run fuel max_pages p0 db0).1
                                 (upserts (run fuel max_pages p0 db0).2))) db0.
Proof. apply run_replayed. Qed.

(** X5: a run never touches a fine whose key is in none of its batches,
    never removes a stored fine, and never turns a stored value of
    [authority], [summary], [source_url] or [direct_url] into NULL. *)
Theorem run_keeps_database fuel max_pages p0 db0 k :
  (k ∉ map etid (concat (upserts (run fuel max_pages p0 db0).2)) ->
   db (run fuel max_pages p0 db0).2 !! k = db0 !! k) /\
  (forall old, db0 !! k = Some old ->
     exists new, db (run fuel max_pages p0 db0).2 !! k = Some new /\
                 keeps_enrichment old new).
Proof.
  destruct (run_replayed fuel max_pages p0 db0) as (tss & Hlen & _ & ->).
  split.
  - intros Hk. apply replay_other. rewrite zip_snd_eq by done.
    intros Hin. apply Hk. apply list_elem_of_fmap in Hin as (r & -> & Hr).
    apply list_elem_of_fmap. exists r. split; [done|]. by eapply committed_sub.
  - intros old Hold. by apply replay_kept.
Qed.

Lemma page_loop_total fuel : forall max_pages page_index seen hm total w total' w',
  total = length (concat (upserts w)) ->
  page_loop fuel max_pages page_index seen hm total w = (Ok total', w') ->
  total' = length (concat (upserts w')).
Proof.
  induction fuel as [|fuel IH];
    intros max_pages page_index seen hm total w total' w' Htot; [done|].
  rewrite page_loop_unfold.
  destruct (scan_page hm seen (page w)) as [[[seen' batch]|e|] p1]; [|done..].
  destruct batch as [|r batch].
  - cbv beta iota zeta. destruct (advance hm p1) as [[moved hm'] p2].
    destruct (_ || _).
    + intros [= <- <-]. simpl. lia.
    + apply IH. simpl. lia.
  - destruct (upsert_rows _ _ _ _) as [[[]|e|] db1]; [|done..].
    cbv beta iota zeta. destruct (advance hm p1) as [[moved hm'] p2].
    assert (Hlen : (total + length (r :: batch))%nat
                   = length (concat (upserts w ++ [r :: batch]))).
    { rewrite concat_app, length_app. simpl. rewrite app_nil_r. lia. }
    destruct (_ || _).
    + by intros [= <- <-].
    + by apply IH.
Qed.

(** X6: when a run ends with a result, the count it reports is the number
    of records handed to [upsert_rows], and each of these records is in
    the database under its key, merged exactly once with what the
    database held for that key before the run. *)
Theorem run_result_stored fuel max_pages p0 db0 total w :
  run fuel max_pages p0 db0 = (Ok total, w) ->
  total = length (concat (upserts w)) /\
  forall r, r ∈ concat (upserts w) ->
    exists n, db w !! etid r = Some (upserted (db0 !! etid r) r (utcnow n)).
Proof.
  intros Hrun. split.
  { eapply page_loop_total; [|exact Hrun]. done. }
  intros r Hr.
  pose proof (run_replayed fuel max_pages p0 db0) as (tss & Hlen & Hclock & Hdb).
  destruct (run_log fuel max_pages p0 db0) as (seen & Hnd & _).
  rewrite Hrun in *. simpl in *.
  apply elem_of_concat in Hr as (b & Hb & Hr).
  apply list_elem_of_lookup in Hb as [i Hi].
  destruct (lookup_lt_is_Some_2 tss i) as [ts Hts].
  { rewrite Hlen. by eapply lookup_lt_Some. }
  rewrite Forall_forall in Hclock.
  destruct (Hclock ts) as [n ->]; [by eapply list_elem_of_lookup_2|].
  exists n. rewrite Hdb. apply (replay_lookup _ _ _ b).
  - by rewrite zip_snd_eq.
  - apply list_elem_of_lookup. exists i. by apply lookup_zip_with_Some; eauto.
  - done.
Qed.

Lemma page_loop_batches fuel : forall n page_index seen hm total w,
  (length (upserts w) <= page_index)%nat -> (page_index < Z.to_nat n)%nat ->
  (length (upserts (page_loop fuel (Some n) page_index seen hm total w).2)
     <= Z.to_nat n)%nat.
Proof.
  induction fuel as [|fuel IH]; intros n page_index seen hm total w Hlog Hpi;
    [simpl; lia|].
  rewrite page_loop_unfold.
  destruct (scan_page hm seen (page w)) as [[[seen' batch]|e|] p1];
    [|simpl; lia..].
  assert (Hnext : forall hm' total' (w' : P -> @world P),
            (forall p2, length (upserts (w' p2)) <= S page_index)%nat ->
            (length (upserts
               (let '(moved, hm2, p2) := advance hm' p1 in
                if negb moved || cap_reached (Some n) (S page_index)
                then (Ok total', w' p2)
                else page_loop fuel (Some n) (S page_index) seen' hm2 total' (w' p2)).2)
             <= Z.to_nat n)%nat).
  { intros hm' total' w' Hw'. destruct (advance hm' p1) as [[moved hm2] p2].
    destruct (negb moved || cap_reached (Some n) (S page_index)) eqn:Hstop.
    - simpl. specialize (Hw' p2). lia.
    - apply orb_false_iff in Hstop as [_ Hcap]. unfold cap_reached in Hcap.
      apply IH; [apply Hw'|].
      apply andb_false_iff in Hcap as [Hcap | Hcap].
      + apply negb_false_iff, Z.eqb_eq in Hcap. lia.
      + apply Z.leb_gt in Hcap. lia. }
  destruct batch as [|r batch].
  - apply (Hnext hm _ (fun p2 => {| page := p2; db := db w; upserts := upserts w |})).
    intros ?. simpl. lia.
  - destruct (upsert_rows _ _ _ _) as [[[]|e|] db1].
    + apply (Hnext hm _ (fun p2 => {| page := p2; db := db1;
                                      upserts := upserts w ++ [r :: batch] |})).
      intros ?. simpl. rewrite length_app. simpl. lia.
    + simpl. rewrite length_app. simpl. lia.
    + simpl. rewrite length_app. simpl. lia.
Qed.

(** X7: with a page cap [n > 0], on a table where a click shows at most
    the child row of the clicked row, [n] rounds of the page loop are
    enough for the crawl to end, with a result or an exception, and
    [upsert_rows] is called at most [n] times. *)
Theorem run_within_cap n p0 db0 :
  click_shows_child -> (0 < n)%Z ->
  (run (Z.to_nat n) (Some n) p0 db0).1 <> OutOfFuel /\
  (length (upserts (run (Z.to_nat n) (Some n) p0 db0).2) <= Z.to_nat n)%nat.
Proof.
  intros Hclick Hn. split.
  - apply page_loop_capped; [done | done | lia | lia].
  - apply page_loop_batches; simpl; lia.
Qed.

End RunFacts.

(** ** More on [absolute_url] *)

Section UrlMore.
Implicit Types (s t u : pystr) (f : N -> bool).

Lemma rstrip_by_prefix f s : exists post, s = rstrip_by f s ++ post.
Proof.
  unfold rstrip_by. destruct (lstrip_by_suffix f (rev s)) as [pre E].
  exists (rev pre). rewrite <- rev_app_distr, <- E. by rewrite rev_involutive.
Qed.

Lemma lstrip_by_fixed f s : lstrip_by f (lstrip_by f s) = lstrip_by f s.
Proof. apply lstrip_by_id, lstrip_by_head. Qed.

Lemma rstrip_by_fixed f s : rstrip_by f (rstrip_by f s) = rstrip_by f s.
Proof. unfold rstrip_by. by rewrite rev_involutive, lstrip_by_fixed. Qed.

Lemma last_rev_head {A} (l : list A) : last (rev l) = head l.
Proof.
  destruct l as [|a l]; [done|]. simpl. by rewrite last_snoc.
Qed.

Lemma rstrip_by_last f s c : last (rstrip_by f s) = Some c -> f c = false.
Proof. unfold rstrip_by. rewrite last_rev_head. apply lstrip_by_head. Qed.

Lemma rstrip_by_id f s :
  (forall c, last s = Some c -> f c = false) -> rstrip_by f s = s.
Proof.
  intros Hl. unfold rstrip_by. rewrite lstrip_by_id; [apply rev_involutive|].
  intros c Hc. apply Hl.
  by rewrite <- (last_rev_head (rev s)), rev_involutive in Hc.
Qed.

Lemma strip_by_fixed f s : strip_by f (strip_by f s) = strip_by f s.
Proof.
  unfold strip_by.
  rewrite (lstrip_by_id f (rstrip_by f (lstrip_by f s))); [apply rstrip_by_fixed|].
  intros c Hc. apply (lstrip_by_head f s).
  destruct (rstrip_by_prefix f (lstrip_by f s)) as [post E].
  rewrite E. by destruct (rstrip_by f (lstrip_by f s)).
Qed.

Lemma strip_by_last f s c : last (strip_by f s) = Some c -> f c = false.
Proof. apply rstrip_by_last. Qed.

Lemma strip_by_id f s :
  (forall c, head s = Some c -> f c = false) ->
  (forall c, last s = Some c -> f c = false) ->
  strip_by f s = s.
Proof.
  intros Hh Hl. unfold strip_by. rewrite (lstrip_by_id f s Hh).
  by apply rstrip_by_id.
Qed.

Lemma startswith_app p s : startswith p (p ++ s) = true.
Proof. induction p as [|a p IH]; simpl; [done|]. by rewrite N.eqb_refl. Qed.

(** The text [absolute_url] puts after the base for [s]. *)
Lemma joined_fixed s :
  let u := BASE_URL ++ [47] ++ lstrip_chars [47] (strip s) in
  strip u = u /\ startswith (py "http") u = true.
Proof.
  intros u. split; [|reflexivity].
  apply strip_by_id.
  - intros c. subst u. simpl. by intros [= <-].
  - intros c. subst u. rewrite app_assoc.
    destruct (lstrip_by_suffix (in_chars [47]) (strip s)) as [pre E].
    unfold lstrip_chars.
    destruct (lstrip_by (in_chars [47]) (strip s)) as [|a t] eqn:Et.
    + rewrite app_nil_r, last_snoc. by intros [= <-].
    + rewrite last_app_cons. intros Hc. apply (strip_by_last is_space s).
      unfold strip in E. rewrite E. by rewrite last_app_cons.
Qed.

Lemma absolute_url_result href u :
  absolute_url href = Some u ->
  u <> [] /\ strip u = u /\ startswith (py "http") u = true.
Proof.
  unfold absolute_url. destruct (negb (truthy_opt href)); [done|].
  destruct (startswith (py "http") (strip (default [] href))) eqn:Hh.
  - intros [= <-]. split; [|split; [apply strip_by_fixed | done]].
    intros E. by rewrite E in Hh.
  - rewrite rstrip_base. intros [= <-].
    destruct (joined_fixed (default [] href)) as [Hs Hp].
    split; [done|]. split; [exact Hs | exact Hp].
Qed.

Lemma absolute_url_http href : absolute_or_absent (absolute_url href).
Proof.
  destruct (absolute_url href) as [u|] eqn:E; [|done].
  by apply absolute_url_result in E as (_ & _ & ?).
Qed.

(** X8: whatever it is given, [absolute_url] yields nothing or a text
    that starts with "http" and carries no surrounding whitespace, and it
    returns such a result unchanged when given it again. *)
Theorem absolute_url_idempotent (href : option pystr) :
  absolute_or_absent (absolute_url href) /\
  absolute_url (absolute_url href) = absolute_url href.
Proof.
  destruct (absolute_url href) as [u|] eqn:E; [|done].
  apply absolute_url_result in E as (Hne & Hs & Hp).
  split; [exact Hp|].
  unfold absolute_url. destruct u as [|c u]; [done|]. simpl negb. cbv iota.
  change (default [] (Some (c :: u))) with (c :: u).
  by rewrite Hs, Hp.
Qed.

End UrlMore.

(** ** The detail panel *)

Section DetailFacts.
Context `{Builtins}.
Implicit Types (tr : Tr) (k v : pystr) (kv : gmap pystr pystr).

(** One step of the loop of [extract_child_kv]. *)
Lemma kv_fold_none (pairs : list (pystr * pystr)) : forall kv k,
  Forall (fun td => norm_label td.1 <> k) pairs ->
  fold_left (fun kv '(title, data) =>
               if truthy (norm_label title)
               then <[norm_label title := strip data]> kv else kv) pairs kv !! k
  = kv !! k.
Proof.
  induction pairs as [|[t d] pairs IH]; intros kv k Hall; [done|].
  inversion Hall as [|? ? Hne Hrest]; subst. simpl in *.
  rewrite IH by done.
  destruct (truthy (norm_label t)); [|done]. by apply lookup_insert_ne.
Qed.

Lemma kv_fold_last (pre : list (pystr * pystr)) : forall kv t d post,
  norm_label t <> [] ->
  Forall (fun td => norm_label td.1 <> norm_label t) post ->
  fold_left (fun kv '(title, data) =>
               if truthy (norm_label title)
               then <[norm_label title := strip data]> kv else kv)
            (pre ++ (t, d) :: post) kv !! norm_label t
  = Some (strip d).
Proof.
  induction pre as [|[t0 d0] pre IH]; intros kv t d post Hne Hpost; simpl.
  - rewrite kv_fold_none by done.
    destruct (norm_label t) eqn:E; [done|]. simpl. by rewrite lookup_insert_eq.
  - by apply IH.
Qed.

Lemma kv_fold_empty_key (pairs : list (pystr * pystr)) : forall kv,
  kv !! [] = None ->
  fold_left (fun kv '(title, data) =>
               if truthy (norm_label title)
               then <[norm_label title := strip data]> kv else kv) pairs kv !! []
  = None.
Proof.
  induction pairs as [|[t d] pairs IH]; intros kv Hkv; [done|]. simpl.
  apply IH. destruct (norm_label t) eqn:E; [done|]. simpl.
  by rewrite lookup_insert_ne.
Qed.

(** X9: the label-to-value bag read from a detail row never has the
    empty label as a key; a label that no title of the row normalises to
    is absent; and when several titles normalise to one label, the value
    paired with the last of them is the one kept, stripped. Without a
    detail row the bag is empty. Titles and values are paired by
    position, up to the shorter of the two lists. *)
Theorem extract_child_kv_last_wins tr :
  extract_child_kv None = ∅ /\
  extract_child_kv (Some tr) !! [] = None /\
  (forall k,
     Forall (fun td => norm_label td.1 <> k) (zip (tr_titles tr) (tr_datas tr)) ->
     extract_child_kv (Some tr) !! k = None) /\
  (forall pre t d post,
     zip (tr_titles tr) (tr_datas tr) = pre ++ (t, d) :: post ->
     norm_label t <> [] ->
     Forall (fun td => norm_label td.1 <> norm_label t) post ->
     extract_child_kv (Some tr) !! norm_label t = Some (strip d)).
Proof.
  unfold extract_child_kv. repeat split.
  - by apply kv_fold_empty_key.
  - intros k Hall. by rewrite kv_fold_none.
  - intros pre t d post -> Hne Hpost. by apply kv_fold_last.
Qed.

Lemma absolute_url_truthy h :
  truthy h = true ->
  exists u, absolute_url (Some h) = Some u /\ truthy u = true.
Proof.
  intros Hh. destruct (absolute_url (Some h)) as [u|] eqn:E.
  - exists u. split; [done|]. apply absolute_url_result in E as [Hne _].
    by destruct u.
  - exfalso. unfold absolute_url in E.
    change (truthy_opt (Some h)) with (truthy h) in E. rewrite Hh in E.
    change (negb true) with false in E. cbv iota in E.
    destruct (startswith (py "http") (strip (default [] (Some h)))); discriminate.
Qed.

Lemma freeform_anchor_text out h :
  ff_authority (freeform_anchor out h) = ff_authority out /\
  ff_sector (freeform_anchor out h) = ff_sector out /\
  ff_summary (freeform_anchor out h) = ff_summary out.
Proof.
  unfold freeform_anchor. destruct (negb (truthy h)); [done|].
  destruct (absolute_url (Some h)); [|done]. by destruct (negb (truthy p)).
Qed.

Lemma freeform_anchors_fold hrefs : forall out,
  let res := fold_left freeform_anchor hrefs out in
  ff_source_url res =
    (if truthy_opt (ff_source_url out) then ff_source_url out
     else match head (anchor_urls hrefs) with
          | Some u => Some u
          | None => ff_source_url out
          end) /\
  ff_direct_url res =
    match last (List.filter (fun u => contains (py "/etid-") (lower u))
                            (anchor_urls hrefs)) with
    | Some u => Some u
    | None => ff_direct_url out
    end /\
  ff_authority res = ff_authority out /\
  ff_sector res = ff_sector out /\
  ff_summary res = ff_summary out.
Proof.
  unfold anchor_urls.
  induction hrefs as [|h hrefs IH]; intros out; cbv zeta.
  - simpl. repeat split. by destruct (truthy_opt _).
  - simpl fold_left.
    destruct (IH (freeform_anchor out h)) as (Hs & Hd & Ha & Hse & Hsu).
    destruct (freeform_anchor_text out h) as (Ea & Ese & Esu).
    rewrite Hs, Hd, Ha, Hse, Hsu, Ea, Ese, Esu.
    simpl omap. unfold freeform_anchor.
    destruct (truthy h) eqn:Hh; simpl negb; cbv iota; [|by repeat split].
    destruct (absolute_url_truthy h Hh) as (u & -> & Hu).
    rewrite Hu. simpl negb. cbv iota. simpl ff_source_url. simpl ff_direct_url.
    change (List.filter ?f (u :: ?l))
      with (if f u then u :: List.filter f l else List.filter f l).
    repeat split.
    + destruct (truthy_opt (ff_source_url out)) eqn:Hso; cbn [negb].
      * by rewrite Hso.
      * change (truthy_opt (Some u)) with (truthy u). by rewrite Hu.
    + destruct (contains (py "/etid-") (lower u)); [|done].
      change (list_omap pystr pystr ?g hrefs) with (omap g hrefs).
      destruct (List.filter _ _) as [|a l']; [reflexivity|].
      change (last (u :: a :: l')) with (last (a :: l')).
      destruct (last (a :: l')) eqn:Elast; [done|].
      by apply last_None in Elast.
Qed.

Lemma freeform_urls tr :
  let urls := anchor_urls (take 10 (tr_anchors tr)) in
  extract_child_freeform None = freeform_empty /\
  ff_source_url (extract_child_freeform (Some tr)) = head urls /\
  ff_direct_url (extract_child_freeform (Some tr)) =
    last (List.filter (fun u => contains (py "/etid-") (lower u)) urls).
Proof.
  intros urls. split; [done|]. unfold extract_child_freeform.
  destruct (freeform_anchors_fold (take 10 (tr_anchors tr))
              (fold_left freeform_line (splitlines (tr_text tr)) freeform_empty))
    as (Hs & Hd & _).
  assert (Hline : forall lines out,
            ff_source_url out = None -> ff_direct_url out = None ->
            ff_source_url (fold_left freeform_line lines out) = None /\
            ff_direct_url (fold_left freeform_line lines out) = None).
  { induction lines as [|l lines IH]; intros out H1 H2; [done|]. simpl.
    apply IH; unfold freeform_line;
      repeat (destruct (startswith _ _); [done|]); done. }
  destruct (Hline (splitlines (tr_text tr)) freeform_empty) as [E1 E2]; [done..|].
  rewrite Hs, Hd, E1, E2. simpl. fold urls.
  split; [by destruct (head urls) | by destruct (last _)].
Qed.

(** X10: of the anchors of a detail row only the first ten are read and
    those with an empty [href] are passed over; each remaining [href] is
    made absolute; [source_url] is the first of these URLs and
    [direct_url] the last of them that contains "/etid-" in lower case;
    each is absent when there is no such URL. Without a detail row all
    five fields have their defaults. *)
Theorem extract_child_freeform_urls tr :
  let urls := anchor_urls (take 10 (tr_anchors tr)) in
  extract_child_freeform None = freeform_empty /\
  ff_source_url (extract_child_freeform (Some tr)) = head urls /\
  ff_direct_url (extract_child_freeform (Some tr)) =
    last (List.filter (fun u => contains (py "/etid-") (lower u)) urls).
Proof. apply freeform_urls. Qed.

End DetailFacts.

(** ** The text of the detail panel, the assembled dict, the pass *)

Section AssembleFacts.
Context `{Builtins} {P : Type} `{Browser P} `{Host}.
Implicit Types (hm : gmap string (option nat)) (p : P) (seen : gset pystr).

Lemma labelled_value_cons label l lines dflt :
  labelled_value label (l :: lines) dflt =
    labelled_value label lines
      (if startswith label (strip l)
       then strip_chars (py " :") (drop (length label) (strip l)) else dflt).
Proof.
  unfold labelled_value.
  change (List.filter (startswith label) (map strip (l :: lines)))
    with (if startswith label (strip l)
          then strip l :: List.filter (startswith label) (map strip lines)
          else List.filter (startswith label) (map strip lines)).
  destruct (startswith label (strip l)); [|done].
  destruct (List.filter _ _) as [|a l']; [done|].
  change (last (strip l :: a :: l')) with (last (a :: l')).
  destruct (last (a :: l')) eqn:E; [done|]. by apply last_None in E.
Qed.

Lemma after_first_prefix sep s :
  startswith sep s = true -> split1_last sep s = drop (length sep) s.
Proof.
  intros Hs. unfold split1_last.
  destruct s; simpl; by rewrite Hs.
Qed.

Lemma startswith_head_ne (a b : N) (pa pb s : pystr) :
  a <> b -> startswith (a :: pa) s = true -> startswith (b :: pb) s = false.
Proof.
  intros Hab. destruct s as [|c s]; [done|]. simpl.
  intros Ha. apply andb_true_iff in Ha as [Ha _]. apply N.eqb_eq in Ha as <-.
  apply andb_false_iff. left. apply N.eqb_neq. congruence.
Qed.

Lemma startswith_second_ne (a b a' b' : N) (pa pb s : pystr) :
  b <> b' -> startswith (a :: b :: pa) s = true ->
  startswith (a' :: b' :: pb) s = false.
Proof.
  intros Hb. destruct s as [|c [|d s]]; [done| |]; cbn [startswith].
  - intros Hs. apply andb_true_iff in Hs as [_ Hs]. done.
  - intros Hs. apply andb_true_iff in Hs as [_ Hs].
    apply andb_true_iff in Hs as [Hs _]. apply N.eqb_eq in Hs as <-.
    apply andb_false_iff. right. apply andb_false_iff. left.
    apply N.eqb_neq. congruence.
Qed.

Lemma freeform_line_fields out l :
  let value label :=
    strip_chars (py " :") (drop (length label) (strip l)) in
  ff_authority (freeform_line out l) =
    (if startswith (py "Authority") (strip l) then value (py "Authority")
     else ff_authority out) /\
  ff_sector (freeform_line out l) =
    (if startswith (py "Sector") (strip l) then value (py "Sector")
     else ff_sector out) /\
  ff_summary (freeform_line out l) =
    (if startswith (py "Summary") (strip l) then value (py "Summary")
     else ff_summary out).
Proof.
  intros value. unfold freeform_line.
  destruct (startswith (py "Authority") (strip l)) eqn:Ea.
  - assert (startswith (py "Sector") (strip l) = false) as ->.
    { apply (startswith_head_ne 65 83 (tail (py "Authority")) (tail (py "Sector")));
        [done | exact Ea]. }
    assert (startswith (py "Summary") (strip l) = false) as ->.
    { apply (startswith_head_ne 65 83 (tail (py "Authority")) (tail (py "Summary")));
        [done | exact Ea]. }
    subst value. cbn [ff_authority ff_sector ff_summary].
    by rewrite after_first_prefix.
  - destruct (startswith (py "Sector") (strip l)) eqn:Es.
    + assert (startswith (py "Summary") (strip l) = false) as ->.
      { apply (startswith_second_ne 83 101 83 117
                 (tail (tail (py "Sector"))) (tail (tail (py "Summary"))));
          [done | exact Es]. }
      subst value. cbn [ff_authority ff_sector ff_summary].
      by rewrite after_first_prefix.
    + destruct (startswith (py "Summary") (strip l)) eqn:Em; [|done].
      subst value. cbn [ff_authority ff_sector ff_summary].
      by rewrite after_first_prefix.
Qed.

Lemma freeform_lines_fold lines : forall out,
  ff_authority (fold_left freeform_line lines out)
    = labelled_value (py "Authority") lines (ff_authority out) /\
  ff_sector (fold_left freeform_line lines out)
    = labelled_value (py "Sector") lines (ff_sector out) /\
  ff_summary (fold_left freeform_line lines out)
    = labelled_value (py "Summary") lines (ff_summary out).
Proof.
  induction lines as [|l lines IH]; intros out; [done|].
  simpl fold_left. destruct (IH (freeform_line out l)) as (-> & -> & ->).
  destruct (freeform_line_fields out l) as (-> & -> & ->).
  by rewrite !labelled_value_cons.
Qed.

(** X11: authority, sector and summary of a detail row each come from the
    last line of the row's text that, stripped, starts with "Authority",
    "Sector" or "Summary": the label is cut off and spaces and colons are
    stripped from both ends of the rest. A label that starts no line gives
    the empty text; the anchors of the row have no part in it. *)
Theorem extract_child_freeform_text tr :
  let lines := splitlines (tr_text tr) in
  ff_authority (extract_child_freeform (Some tr))
    = labelled_value (py "Authority") lines [] /\
  ff_sector (extract_child_freeform (Some tr))
    = labelled_value (py "Sector") lines [] /\
  ff_summary (extract_child_freeform (Some tr))
    = labelled_value (py "Summary") lines [].
Proof.
  intros lines. unfold extract_child_freeform. fold lines.
  destruct (freeform_anchors_fold (take 10 (tr_anchors tr))
              (fold_left freeform_line lines freeform_empty))
    as (_ & _ & -> & -> & ->).
  apply freeform_lines_fold.
Qed.

Lemma anchor_urls_http hrefs u :
  u ∈ anchor_urls hrefs -> startswith (py "http") u = true.
Proof.
  unfold anchor_urls. rewrite list_elem_of_omap. intros (h & _ & Hu).
  destruct (truthy h); [|done].
  by apply absolute_url_result in Hu as (_ & _ & ?).
Qed.

Lemma freeform_direct_url_http child :
  absolute_or_absent (ff_direct_url (extract_child_freeform child)).
Proof.
  destruct child as [tr|]; [|done].
  destruct (freeform_urls tr) as (_ & _ & ->).
  destruct (last _) as [u|] eqn:E; [|done]. simpl.
  apply last_Some_elem_of in E.
  apply list_elem_of_In, filter_In in E as [E _].
  by apply list_elem_of_In, anchor_urls_http in E.
Qed.

Lemma safe_text_ok hm td_count t key :
  (td_count <= length (tr_cells t))%nat ->
  exists s, safe_text hm td_count (Some t) key = Ok s.
Proof.
  intros Hlen. unfold safe_text. destruct (header_get hm key) as [i|]; [|by eexists].
  destruct (td_count <=? i)%nat eqn:Hi; [by eexists|].
  apply Nat.leb_gt in Hi. simpl.
  destruct (lookup_lt_is_Some_2 (tr_cells t) i) as [td ->]; [lia|]. by eexists.
Qed.

Lemma or_else_absolute a b :
  absolute_or_absent a -> absolute_or_absent b -> absolute_or_absent (or_else a b).
Proof. intros Ha Hb. unfold or_else. by destruct (truthy_opt a). Qed.

Lemma assemble_ok hm td_count t child :
  (td_count <= length (tr_cells t))%nat ->
  exists r, assemble hm td_count (Some t) child = Ok r /\ well_shaped r.
Proof.
  intros Hlen. unfold assemble.
  destruct (safe_text_ok hm td_count t "etid" Hlen) as [s1 ->].
  destruct (safe_text_ok hm td_count t "country" Hlen) as [s2 ->].
  destruct (safe_text_ok hm td_count t "date" Hlen) as [s3 ->].
  destruct (safe_text_ok hm td_count t "fine" Hlen) as [s4 ->].
  destruct (safe_text_ok hm td_count t "controller" Hlen) as [s5 ->].
  destruct (safe_text_ok hm td_count t "quoted" Hlen) as [s6 ->].
  destruct (safe_text_ok hm td_count t "type" Hlen) as [s7 ->].
  eexists. split; [reflexivity|].
  unfold well_shaped. cbn [country authority controller_or_processor
    quoted_articles type_ summary source_url direct_url].
  repeat (split; [by eexists|]). split.
  - apply absolute_url_http.
  - apply or_else_absolute; [apply freeform_direct_url_http|].
    apply absolute_url_http.
Qed.

End AssembleFacts.

(** ** The pass and the move to the next page, once more *)

Section PassFacts.
Context `{Builtins} {P : Type} `{Browser P} `{Host}.
Implicit Types (hm : gmap string (option nat)) (p : P) (seen : gset pystr).

Lemma assemble_shape hm td_count tr child r :
  assemble hm td_count tr child = Ok r -> well_shaped r.
Proof.
  unfold assemble.
  destruct (safe_text hm td_count tr "etid") as [s1| |]; [|done..].
  destruct (safe_text hm td_count tr "country") as [s2| |]; [|done..].
  destruct (safe_text hm td_count tr "date") as [s3| |]; [|done..].
  destruct (safe_text hm td_count tr "fine") as [s4| |]; [|done..].
  destruct (safe_text hm td_count tr "controller") as [s5| |]; [|done..].
  destruct (safe_text hm td_count tr "quoted") as [s6| |]; [|done..].
  destruct (safe_text hm td_count tr "type") as [s7| |]; [|done..].
  intros [= <-].
  unfold well_shaped. cbn [country authority controller_or_processor
    quoted_articles type_ summary source_url direct_url].
  repeat (split; [by eexists|]). split.
  - apply absolute_url_http.
  - apply or_else_absolute; [apply freeform_direct_url_http|].
    apply absolute_url_http.
Qed.

Lemma add_row_shape r acc :
  well_shaped r -> Forall well_shaped acc.2 -> Forall well_shaped (add_row r acc).2.
Proof.
  intros Hr Hacc. unfold add_row. destruct (keep r acc.1); [|done]. simpl.
  apply Forall_app. split; [done|]. by constructor.
Qed.

Lemma scan_loop_shape fuel : forall hm idx acc p acc' p',
  Forall well_shaped acc.2 ->
  scan_loop fuel hm idx acc p = (Ok acc', p') -> Forall well_shaped acc'.2.
Proof.
  induction fuel as [|fuel IH]; intros hm idx acc p acc' p' Hacc; [done|].
  rewrite scan_loop_unfold. cbv zeta.
  destruct (_ || _); [by intros [= <- _]|].
  destruct (rows p !! idx) as [tr|]; [|by intros [= <- _]].
  destruct (is_child tr); [by apply IH|].
  destruct (_ =? _)%nat; [by apply IH|].
  destruct (child_of _ idx) as [child step].
  destruct (assemble _ _ _ _) as [r| |] eqn:Hasm; [|done..].
  apply IH. apply add_row_shape; [|done]. by eapply assemble_shape.
Qed.

Lemma page_loop_shape fuel : forall max_pages page_index seen hm total w,
  Forall (Forall well_shaped) (upserts w) ->
  Forall (Forall well_shaped)
         (upserts (page_loop fuel max_pages page_index seen hm total w).2).
Proof.
  induction fuel as [|fuel IH]; intros max_pages page_index seen hm total w Hw;
    [done|].
  rewrite page_loop_unfold.
  destruct (scan_page hm seen (page w)) as [[[seen' batch]|e|] p1] eqn:Hscan;
    [|done..].
  apply scan_loop_shape in Hscan; [|constructor]. simpl in Hscan.
  assert (Hw1 : Forall (Forall well_shaped) (upserts w ++ [batch])).
  { apply Forall_app. split; [done|]. by constructor. }
  destruct batch as [|r batch].
  - cbv beta iota zeta. destruct (advance hm p1) as [[moved hm'] p2].
    destruct (_ || _); [done|]. by apply IH.
  - destruct (upsert_rows _ _ _ _) as [[[]|e|] db1]; [|done..].
    cbv beta iota zeta. destruct (advance hm p1) as [[moved hm'] p2].
    destruct (_ || _); [done|]. by apply IH.
Qed.

(** X12: in every dict a run hands to [upsert_rows], country, authority,
    controller, quoted articles, type and summary are texts, possibly
    empty but never [None], and the two URLs are absent or start with
    "http". *)
Theorem run_upserts_well_shaped fuel max_pages p0 db0 :
  Forall (Forall well_shaped) (upserts (run fuel max_pages p0 db0).2).
Proof. apply page_loop_shape. constructor. Qed.

Lemma child_of_step rs idx child step :
  child_of rs idx = (child, step) ->
  (step = 1 \/ step = 2)%nat /\
  (forall tr, rs !! S idx = Some tr -> is_child tr = true -> step = 2%nat).
Proof.
  unfold child_of. replace (idx + 1)%nat with (S idx) by lia.
  destruct (S idx <? length rs)%nat eqn:Hlt.
  - destruct (rs !! S idx) as [maybe|] eqn:Hm.
    + destruct (is_child maybe) eqn:Hc; intros [= <- <-]; (split; [auto|]).
      * done.
      * intros tr [= <-]. congruence.
    + intros [= <- <-]. split; [auto|]. done.
  - intros [= <- <-]. split; [auto|]. intros tr Htr.
    apply Nat.ltb_ge in Hlt. apply lookup_lt_Some in Htr. lia.
Qed.

Lemma scan_loop_ok fuel : forall hm idx acc p,
  click_shows_child -> click_keeps_row ->
  (length (rows p) - idx < fuel)%nat ->
  exists acc' p', scan_loop fuel hm idx acc p = (Ok acc', p').
Proof.
  induction fuel as [|fuel IH]; intros hm idx acc p Hclick Hkeep Hfuel; [lia|].
  rewrite scan_loop_unfold. cbv zeta.
  destruct (_ || _) eqn:Hend; [by eexists _, _|].
  apply orb_false_iff in Hend as [Hidx _]. apply Nat.leb_gt in Hidx.
  destruct (rows p !! idx) as [tr|] eqn:Htr; [|by eexists _, _].
  destruct (is_child tr); [apply IH; [done | done | lia]|].
  destruct (_ =? _)%nat; [apply IH; [done | done | lia]|].
  destruct (Hclick idx p) as [Hlen Hgrow].
  destruct (child_of (rows (click_first_cell idx p)) idx) as [child step] eqn:Hchild.
  apply child_of_step in Hchild as [Hstep Hchild].
  rewrite Hkeep, Htr.
  destruct (assemble_ok hm (length (tr_cells tr)) tr child) as (r & -> & _); [lia|].
  apply IH; [done | done |].
  destruct (decide (length (rows (click_first_cell idx p))
                    = S (length (rows p)))) as [Hg | Hg].
  - destruct (Hgrow Hg) as (tr' & Htr' & Hc).
    rewrite (Hchild tr' Htr' Hc). lia.
  - destruct Hstep as [-> | ->]; lia.
Qed.

(** X13: on a table where a click shows at most the child row of the
    clicked row and leaves the clicked row as it is, the pass over a page
    always ends with a batch: it neither raises nor runs on. *)
Theorem scan_page_ok hm seen p :
  click_shows_child -> click_keeps_row ->
  exists seen' batch p', scan_page hm seen p = (Ok (seen', batch), p').
Proof.
  intros Hclick Hkeep.
  destruct (scan_loop_ok (S (length (rows p))) hm 0 (seen, []) p Hclick Hkeep)
    as ([seen' batch] & p' & E); [lia|].
  by exists seen', batch, p'.
Qed.

Lemma poll_moved n : forall first_before p p',
  poll n first_before p = (true, p') ->
  exists tr rest, rows p' = tr :: rest /\ tr_text tr <> first_before.
Proof.
  induction n as [|n IH]; intros fb p p'; [done|].
  change (poll (S n) fb p) with
    (match rows (wait_250 p) with
     | [] => poll n fb (wait_250 p)
     | tr :: _ => if negb (str_eqb (tr_text tr) fb) then (true, wait_250 p)
                  else poll n fb (wait_250 p)
     end).
  destruct (rows (wait_250 p)) as [|tr rest] eqn:Hrows; [apply IH|].
  destruct (negb (str_eqb (tr_text tr) fb)) eqn:Hne; [|apply IH].
  intros [= <-]. exists tr, rest. split; [done|].
  apply negb_true_iff in Hne. by apply bool_decide_eq_false in Hne.
Qed.

Lemma try_next_moved s hm p moved hm' p' :
  try_next s hm p = (moved, hm', p') ->
  if moved
  then hm' = build_header_map (headers p') /\ rows p' <> []
  else hm' = hm.
Proof.
  unfold try_next. destruct (next_visible s p); [|by intros [= <- <- _]].
  destruct (poll 20 (first_row_text p) (click_next s p)) as [[|] p2] eqn:Hpoll.
  - intros [= <- <- <-]. split; [done|].
    apply poll_moved in Hpoll as (tr & rest & -> & _). done.
  - by intros [= <- <- _].
Qed.

(** X14: when the move to the next page is confirmed, the header map that
    comes back is the one built from the headers of the page as it then
    stands, and that page shows at least one row; when it is not, the
    header map is the one that went in. *)
Theorem advance_header_map hm p moved hm' p' :
  advance hm p = (moved, hm', p') ->
  if moved
  then hm' = build_header_map (headers p') /\ rows p' <> []
  else hm' = hm.
Proof.
  unfold advance.
  destruct (try_next PaginateButtonNext hm p) as [[m1 hm1] p1] eqn:E1.
  apply try_next_moved in E1. destruct m1.
  - by intros [= <- <- <-].
  - subst hm1. apply try_next_moved.
Qed.

End PassFacts.

(** ** Amounts written in groups of three digits *)

Section GroupedAmounts.
Implicit Types (s t ds : pystr) (c : N) (f : N -> bool).

Lemma replace_delete c s :
  replace [c] [] s = List.filter (fun x => negb (x =? c)) s.
Proof.
  unfold replace. induction s as [|a s IH]; [done|].
  cbn [replace_from startswith List.filter length Nat.sub app].
  rewrite andb_true_r, (N.eqb_sym c a).
  destruct (a =? c); cbn [negb]; by rewrite IH.
Qed.

Lemma replace_char a b s :
  replace [a] [b] s = map (fun x => if x =? a then b else x) s.
Proof.
  unfold replace. induction s as [|x s IH]; [done|].
  cbn [replace_from startswith map length Nat.sub app].
  rewrite andb_true_r, (N.eqb_sym a x).
  destruct (x =? a); by rewrite IH.
Qed.

Lemma filter_twice {A} (f g : A -> bool) (l : list A) :
  List.filter f (List.filter g l) = List.filter (fun x => g x && f x) l.
Proof.
  induction l as [|a l IH]; [done|]. simpl.
  destruct (g a); simpl; [|done]. destruct (f a); by rewrite IH.
Qed.

Lemma filter_all_false {A} (f : A -> bool) (l : list A) :
  Forall (fun x => f x = false) l -> List.filter f l = [].
Proof. induction 1 as [|a l Ha _ IH]; [done|]. simpl. by rewrite Ha. Qed.

Lemma lstrip_by_split f s :
  exists pre, s = pre ++ lstrip_by f s /\ Forall (fun c => f c = true) pre.
Proof.
  induction s as [|a s (pre & E & Hpre)]; simpl.
  - by exists [].
  - destruct (f a) eqn:Fa.
    + exists (a :: pre). split; [by rewrite E at 1|]. by constructor.
    + by exists [].
Qed.

Lemma strip_by_split f s :
  exists pre post, s = pre ++ strip_by f s ++ post /\
    Forall (fun c => f c = true) pre /\ Forall (fun c => f c = true) post.
Proof.
  destruct (lstrip_by_split f s) as (pre & E & Hpre).
  destruct (lstrip_by_split f (rev (lstrip_by f s))) as (tsop & E' & Hpost).
  exists pre, (rev tsop). unfold strip_by, rstrip_by. split; [|split; [done|]].
  - rewrite E at 1. f_equal.
    rewrite <- (rev_involutive (lstrip_by f s)) at 1.
    rewrite E' at 1. by rewrite rev_app_distr.
  - apply Forall_forall. intros c Hc. rewrite Forall_forall in Hpost.
    apply Hpost. by apply list_elem_of_In, in_rev, list_elem_of_In.
Qed.

Lemma filter_strip_by (keep : N -> bool) f s :
  (forall c, c ∈ s -> f c = true -> keep c = false) ->
  List.filter keep (strip_by f s) = List.filter keep s.
Proof.
  intros Hs. destruct (strip_by_split f s) as (pre & post & E & Hpre & Hpost).
  assert (Hdrop : forall l, Forall (fun c => f c = true) l ->
                    (forall c, c ∈ l -> c ∈ s) -> List.filter keep l = []).
  { intros l Hl Hin. apply filter_all_false. rewrite Forall_forall in *.
    intros c Hc. apply Hs; [by apply Hin | by apply Hl]. }
  rewrite E at 2. rewrite !List.filter_app.
  rewrite (Hdrop pre), (Hdrop post), app_nil_r; [done|done| |done|].
  - intros c Hc. rewrite E. rewrite !elem_of_app. auto.
  - intros c Hc. rewrite E. rewrite !elem_of_app. auto.
Qed.

Lemma digit_or_sep_plain c :
  ascii_digit c || is_sep c = true ->
  is_space c = false /\ amount_noise c = false /\ (c <? 127) = true /\
  (c =? 95) = false /\ c_space c = false.
Proof.
  unfold ascii_digit, is_sep, is_space, amount_noise, c_space, EURO, NBSP.
  intros Hc.
  assert (Hr : 44 <= c <= 57).
  { apply orb_true_iff in Hc as [Hc | Hc].
    - apply andb_true_iff in Hc as [Hlo Hhi].
      apply N.leb_le in Hlo. apply N.leb_le in Hhi. lia.
    - apply orb_true_iff in Hc as [Hc | Hc]; apply N.eqb_eq in Hc; lia. }
  repeat split;
    repeat (first [ apply orb_false_iff; split
                  | apply andb_false_iff;
                    first [ left; apply N.leb_gt; lia
                          | right; apply N.leb_gt; lia ]
                  | apply N.eqb_neq; lia
                  | apply N.ltb_lt; lia ]).
Qed.

Lemma ascii_digit_facts c :
  ascii_digit c = true ->
  is_digit c = true /\ is_sep c = false /\
  (c =? 45) = false /\ (c =? 43) = false /\ ascii_digit c || is_sep c = true.
Proof.
  intros Hc. split; [|split; [|split; [|split]]].
  - unfold is_digit, digit_value, nd_starts.
    change (List.find ?g (48 :: ?l)) with (if g 48 then Some 48 else List.find g l).
    unfold ascii_digit in Hc. apply andb_true_iff in Hc as [Hlo Hhi].
    apply N.leb_le in Hhi.
    assert ((48 <=? c) && (c <? 48 + 10) = true) as ->; [|done].
    rewrite Hlo. apply N.ltb_lt. lia.
  - unfold ascii_digit in Hc. apply andb_true_iff in Hc as [Hlo Hhi].
    apply N.leb_le in Hlo. unfold is_sep.
    apply orb_false_iff. split; apply N.eqb_neq; lia.
  - unfold ascii_digit in Hc. apply andb_true_iff in Hc as [Hlo Hhi].
    apply N.leb_le in Hlo. apply N.eqb_neq. lia.
  - unfold ascii_digit in Hc. apply andb_true_iff in Hc as [Hlo Hhi].
    apply N.leb_le in Hlo. apply N.eqb_neq. lia.
  - by rewrite Hc.
Qed.

(** [drop_thousands] on a run of digits. *)
Lemma drop_thousands_digits ds : forall prev rest,
  all_ascii_digits ds -> ds <> [] ->
  exists d, is_digit d = true /\
    drop_thousands prev (ds ++ rest) = ds ++ drop_thousands (Some d) rest.
Proof.
  induction ds as [|a ds IH]; intros prev rest Hds Hne; [done|].
  inversion Hds as [|? ? Ha Hrest]; subst.
  destruct (ascii_digit_facts a Ha) as (Hdig & Hsep & _).
  assert (Hstep : forall r, drop_thousands prev (a :: r)
                            = a :: drop_thousands (Some a) r).
  { intros r. cbn [drop_thousands]. fold (is_sep a). by rewrite Hsep. }
  destruct ds as [|b ds].
  - exists a. split; [done|]. apply Hstep.
  - destruct (IH (Some a) rest Hrest ltac:(done)) as (d & Hd & E).
    exists d. split; [done|].
    change ((a :: b :: ds) ++ rest) with (a :: (b :: ds) ++ rest).
    by rewrite Hstep, E.
Qed.

Lemma drop_thousands_only_digits ds prev :
  all_ascii_digits ds -> drop_thousands prev ds = ds.
Proof.
  intros Hds. destruct ds as [|a ds]; [done|].
  destruct (drop_thousands_digits (a :: ds) prev [] Hds ltac:(done)) as (d & _ & E).
  rewrite app_nil_r in E. rewrite E. simpl. by rewrite app_nil_r.
Qed.

Lemma three_digits_no fp :
  all_ascii_digits fp -> length fp <> 3%nat -> three_digits_then_stop fp = false.
Proof.
  intros Hfp Hlen. destruct fp as [|a [|b [|c [|d fp]]]]; try done.
  unfold three_digits_then_stop.
  inversion Hfp as [|? ? _ Ht1]; inversion Ht1 as [|? ? _ Ht2];
    inversion Ht2 as [|? ? _ Ht3]; inversion Ht3 as [|? ? Hd _]; subst.
  destruct (ascii_digit_facts d Hd) as (-> & _). by rewrite !andb_false_r.
Qed.

Lemma three_digits_yes g rest :
  all_ascii_digits g -> length g = 3%nat ->
  (rest = [] \/ exists r, rest = 46 :: r) ->
  three_digits_then_stop (g ++ rest) = true.
Proof.
  intros Hg Hlen Hrest. destruct g as [|a [|b [|c [|]]]]; try done.
  inversion Hg as [|? ? Ha Ht1]; inversion Ht1 as [|? ? Hb Ht2];
    inversion Ht2 as [|? ? Hc _]; subst.
  destruct (ascii_digit_facts a Ha) as (Da & _).
  destruct (ascii_digit_facts b Hb) as (Db & _).
  destruct (ascii_digit_facts c Hc) as (Dc & _).
  cbn [app three_digits_then_stop]. rewrite Da, Db, Dc.
  destruct Hrest as [-> | [r ->]]; reflexivity.
Qed.

(** The groups with all their separators turned into dots. *)
Lemma drop_thousands_groups (groups : list (N * pystr)) :
  forall (d : N) (dec : option pystr),
  is_digit d = true ->
  Forall (fun g => length g.2 = 3%nat /\ all_ascii_digits g.2) groups ->
  match dec with
  | Some fp => all_ascii_digits fp /\ length fp <> 3%nat
  | None => True
  end ->
  drop_thousands (Some d)
    (concat (map (fun g => 46 :: g.2) groups)
     ++ match dec with Some fp => 46 :: fp | None => [] end)
  = concat (map snd groups)
    ++ match dec with Some fp => 46 :: fp | None => [] end.
Proof.
  induction groups as [|[sep g] groups IH]; intros d dec Hd Hgroups Hdec.
  - simpl. destruct dec as [fp|]; [|done]. destruct Hdec as [Hfp Hlen].
    cbn [drop_thousands]. rewrite Hd, (three_digits_no fp Hfp Hlen).
    cbn [N.eqb orb andb]. by rewrite drop_thousands_only_digits.
  - inversion Hgroups as [|? ? [Hlen Hg] Hrest]; subst. simpl in Hlen, Hg.
    cbn [map concat fst snd]. rewrite <- !app_assoc.
    change ((46 :: g) ++ ?r) with (46 :: g ++ r).
    cbn [drop_thousands]. rewrite Hd.
    rewrite three_digits_yes; [|done|done|].
    2: { destruct groups as [|[sep' g'] groups]; simpl.
         - destruct dec; [right; by eexists | by left].
         - right. by eexists. }
    cbn [N.eqb orb andb].
    destruct (drop_thousands_digits g (Some 46)
                (concat (map (fun g0 => 46 :: g0.2) groups)
                 ++ match dec with Some fp => 46 :: fp | None => [] end) Hg)
      as (d' & Hd' & ->); [by destruct g|].
    f_equal. by apply IH.
Qed.

Lemma to_ascii_plain s :
  Forall (fun c => (c <? 127) = true) s -> to_ascii s = s.
Proof. induction 1 as [|a s Ha _ IH]; [done|]. simpl. by rewrite Ha, IH. Qed.

Lemma drop_underscores_plain s : forall prev,
  (prev =? 95) = false -> Forall (fun c => (c =? 95) = false) s ->
  drop_underscores prev s = Some s.
Proof.
  induction s as [|a s IH]; intros prev Hprev Hs; simpl.
  - by rewrite Hprev.
  - inversion Hs as [|? ? Ha Hrest]; subst.
    rewrite Ha, Hprev. simpl. by rewrite IH.
Qed.

Lemma strip_by_plain f s :
  Forall (fun c => f c = false) s -> strip_by f s = s.
Proof.
  intros Hs. rewrite Forall_forall in Hs. apply strip_by_id.
  - intros c Hc. apply Hs. destruct s; [done|]. injection Hc as <-. by left.
  - intros c Hc. apply Hs. by apply last_Some_elem_of.
Qed.

Lemma span_digits_app ds rest :
  all_ascii_digits ds ->
  (rest = [] \/ exists r, rest = 46 :: r) ->
  span_digits (ds ++ rest) = (digits_of ds, rest).
Proof.
  intros Hds Hrest. induction Hds as [|a ds Ha _ IH]; simpl.
  - by destruct Hrest as [-> | [r ->]].
  - by rewrite Ha, IH.
Qed.

Lemma parse_decimal_digits ds dec :
  all_ascii_digits ds -> ds <> [] ->
  match dec with Some fp => all_ascii_digits fp | None => True end ->
  parse_decimal (ds ++ match dec with Some fp => 46 :: fp | None => [] end)
  = Some (FDec false
            (digits_value (digits_of (ds ++ default [] dec)))
            (- Z.of_nat (length (default [] dec)))).
Proof.
  intros Hds Hne Hdec. unfold parse_decimal.
  assert (Hsign : forall r, take_sign (ds ++ r) = (false, ds ++ r)).
  { intros r. destruct ds as [|a ds]; [done|].
    inversion Hds as [|? ? Ha _]; subst.
    destruct (ascii_digit_facts a Ha) as (_ & _ & H45 & H43 & _).
    simpl. by rewrite H45, H43. }
  rewrite Hsign. rewrite span_digits_app; [|done|].
  2: { destruct dec; [right; by eexists | by left]. }
  destruct dec as [fp|]; simpl default.
  - cbn [N.eqb]. rewrite <- (app_nil_r fp) at 1.
    rewrite span_digits_app; [|done|by left].
    change ((46 =? 46)%positive) with true. cbv beta iota.
    assert (Hlen : length (digits_of fp) = length fp) by apply length_map.
    assert (Hd : digits_of (ds ++ fp) = digits_of ds ++ digits_of fp)
      by apply map_app.
    rewrite Hd, Hlen.
    destruct (digits_of ds ++ digits_of fp) as [|x xs] eqn:E; [|done].
    apply app_eq_nil in E as [E _]. destruct ds; done.
  - rewrite !app_nil_r. destruct (digits_of ds) as [|x xs] eqn:E.
    + destruct ds; done.
    + done.
Qed.

Lemma float_of_str_digits ds dec :
  all_ascii_digits ds -> ds <> [] ->
  match dec with Some fp => all_ascii_digits fp | None => True end ->
  float_of_str (ds ++ match dec with Some fp => 46 :: fp | None => [] end)
  = Some (FDec false
            (digits_value (digits_of (ds ++ default [] dec)))
            (- Z.of_nat (length (default [] dec)))).
Proof.
  intros Hds Hne Hdec.
  assert (Hplain : Forall (fun c => ascii_digit c || is_sep c = true)
                     (ds ++ match dec with Some fp => 46 :: fp | None => [] end)).
  { apply Forall_app. split.
    - eapply Forall_impl; [exact Hds|]. intros c Hc. by rewrite Hc.
    - destruct dec as [fp|]; [|constructor]. constructor; [done|].
      eapply Forall_impl; [exact Hdec|]. intros c Hc. by rewrite Hc. }
  unfold float_of_str.
  rewrite to_ascii_plain.
  2: { eapply Forall_impl; [exact Hplain|]. intros c Hc.
       by apply digit_or_sep_plain in Hc as (_ & _ & ? & _). }
  rewrite drop_underscores_plain; [|done|].
  2: { eapply Forall_impl; [exact Hplain|]. intros c Hc.
       by apply digit_or_sep_plain in Hc as (_ & _ & _ & ? & _). }
  rewrite strip_by_plain.
  2: { eapply Forall_impl; [exact Hplain|]. intros c Hc.
       by apply digit_or_sep_plain in Hc as (_ & _ & _ & _ & ?). }
  by rewrite parse_decimal_digits.
Qed.

Lemma grouped_text_plain ip groups dec :
  well_grouped ip groups dec ->
  Forall (fun c => ascii_digit c || is_sep c = true) (grouped_text ip groups dec).
Proof.
  intros (_ & Hip & Hgroups & Hdec). unfold grouped_text.
  assert (Hd : forall ds, all_ascii_digits ds ->
                 Forall (fun c => ascii_digit c || is_sep c = true) ds).
  { intros ds Hds. eapply Forall_impl; [exact Hds|]. intros c Hc. by rewrite Hc. }
  apply Forall_app. split; [by apply Hd|]. apply Forall_app. split.
  - induction Hgroups as [|[sep g] groups (Hsep & _ & Hg) _ IH]; [constructor|].
    simpl. constructor; [simpl in Hsep; by rewrite Hsep, orb_true_r|].
    apply Forall_app. split; [by apply Hd | done].
  - destruct dec as [[sep fp]|]; [|constructor]. destruct Hdec as (Hsep & Hfp & _).
    constructor; [by rewrite Hsep, orb_true_r | by apply Hd].
Qed.

Lemma commas_to_dots ip groups dec :
  well_grouped ip groups dec ->
  map (fun x => if x =? 44 then 46 else x) (grouped_text ip groups dec)
  = ip ++ concat (map (fun g => 46 :: g.2) groups)
       ++ match snd <$> dec with Some fp => 46 :: fp | None => [] end.
Proof.
  intros (_ & Hip & Hgroups & Hdec). unfold grouped_text.
  assert (Hd : forall ds, all_ascii_digits ds ->
                 map (fun x => if x =? 44 then 46 else x) ds = ds).
  { intros ds Hds. induction Hds as [|a ds Ha _ IH]; [done|]. simpl.
    rewrite IH. unfold ascii_digit in Ha. apply andb_true_iff in Ha as [Ha _].
    apply N.leb_le in Ha. assert ((a =? 44) = false) as ->; [|done].
    apply N.eqb_neq. lia. }
  assert (Hs : forall sep, is_sep sep = true ->
                 (if sep =? 44 then 46 else sep) = 46).
  { intros sep Hsep. unfold is_sep in Hsep.
    destruct (sep =? 44) eqn:E; [done|]. rewrite orb_false_r in Hsep.
    by apply N.eqb_eq in Hsep. }
  rewrite !map_app, (Hd ip Hip). f_equal. f_equal.
  - induction Hgroups as [|[sep g] groups (Hsep & _ & Hg) _ IH]; [done|].
    simpl in *. by rewrite map_app, IH, (Hd g Hg), (Hs sep Hsep).
  - destruct dec as [[sep fp]|]; [|done]. destruct Hdec as (Hsep & Hfp & _).
    simpl. by rewrite (Hd fp Hfp), (Hs sep Hsep).
Qed.

(** X15: an amount written as digits, then groups of exactly three
    digits each introduced by a dot or a comma, then possibly a dot or
    comma followed by a number of decimals other than three, with spaces,
    non-breaking spaces and euro signs anywhere, is read as the number
    all its digits spell, the decimals after the point. In particular a
    single separator followed by exactly three digits is always taken
    for a thousands separator. *)
Theorem parse_amount_eur_grouped raw ip groups dec :
  well_grouped ip groups dec ->
  List.filter (fun c => negb (amount_noise c)) raw = grouped_text ip groups dec ->
  parse_amount_eur raw = Some (grouped_value ip groups dec).
Proof.
  intros Hwg Hraw.
  pose proof (grouped_text_plain ip groups dec Hwg) as Hplain.
  rewrite Forall_forall in Hplain.
  destruct Hwg as (Hne & Hip & Hgroups & Hdec).
  assert (Hwg : well_grouped ip groups dec) by done.
  unfold parse_amount_eur.
  assert (truthy raw = true) as ->.
  { destruct raw; [|done]. simpl in Hraw. unfold grouped_text in Hraw.
    symmetry in Hraw. apply app_eq_nil in Hraw as [? _]. done. }
  cbn [negb].
  assert (Hclean : replace [32] [] (replace [NBSP] [] (replace [EURO] [] (strip raw)))
                   = grouped_text ip groups dec).
  { rewrite !replace_delete, !filter_twice, <- Hraw.
    rewrite <- (filter_strip_by (fun c => negb (amount_noise c)) is_space raw).
    - apply filter_ext. intros c. unfold amount_noise.
      by rewrite !negb_orb, andb_assoc.
    - intros c Hc Hsp. apply negb_false_iff.
      destruct (amount_noise c) eqn:Hn; [done|]. exfalso.
      assert (Hin : c ∈ grouped_text ip groups dec).
      { rewrite <- Hraw. apply list_elem_of_In, filter_In.
        split; [by apply list_elem_of_In | by rewrite Hn]. }
      apply Hplain, digit_or_sep_plain in Hin as (Hsp' & _). congruence. }
  rewrite Hclean, replace_char, (commas_to_dots _ _ _ Hwg).
  destruct (drop_thousands_digits ip None
              (concat (map (fun g => 46 :: g.2) groups)
               ++ match snd <$> dec with Some fp => 46 :: fp | None => [] end)
              Hip Hne) as (d & Hd & ->).
  rewrite (drop_thousands_groups groups d (snd <$> dec) Hd).
  2: { eapply Forall_impl; [exact Hgroups|]. by intros g (_ & ? & ?). }
  2: { destruct dec as [[sep fp]|]; [|done]. by destruct Hdec as (_ & ? & ?). }
  rewrite app_assoc.
  assert (Hall : all_ascii_digits (ip ++ concat (map snd groups))).
  { apply Forall_app. split; [done|].
    clear -Hgroups. induction Hgroups as [|[sep g] groups (_ & _ & Hg) _ IH];
      [constructor|]. simpl. apply Forall_app. by split. }
  rewrite float_of_str_digits; [|done| |].
  2: { destruct ip; [done|]. done. }
  2: { destruct dec as [[sep fp]|]; [|done]. by destruct Hdec as (_ & ? & _). }
  unfold grouped_value. rewrite <- app_assoc.
  by destruct dec as [[sep fp]|].
Qed.

End GroupedAmounts.

(** ** The query service *)

Section ApiFacts.
Import Api.
Implicit Types (q : string * list param) (db : table).

Lemma placeholders_app (a b : string) :
  placeholders (a +:+ b) = (placeholders a + placeholders b)%nat.
Proof. induction a as [|c a IH]; simpl; [done|]. rewrite IH. lia. Qed.

Lemma append_empty (a : string) : a +:+ "" = a.
Proof.
  induction a as [|c a IH]; [done|].
  change (String c (a +:+ "") = String c a). by f_equal.
Qed.

Lemma text_filter_fst v clause wrap q :
  (text_filter v clause wrap q).1
  = q.1 +:+ (if truthy_opt v then clause else ""%string).
Proof.
  unfold text_filter. destruct v as [s|]; simpl.
  - destruct (truthy s); simpl; [done|]. by rewrite append_empty.
  - by rewrite append_empty.
Qed.

Lemma text_filter_snd v clause wrap q :
  (text_filter v clause wrap q).2 = q.2 ++ given_text v wrap.
Proof.
  unfold text_filter, given_text. destruct v as [s|]; simpl.
  - destruct (truthy s); simpl; [done|]. by rewrite app_nil_r.
  - by rewrite app_nil_r.
Qed.

Lemma real_filter_fst v clause q :
  (real_filter v clause q).1
  = q.1 +:+ (if bool_decide (is_Some v) then clause else ""%string).
Proof.
  unfold real_filter. destruct v; simpl; [done|]. by rewrite append_empty.
Qed.

Lemma real_filter_snd v clause q :
  (real_filter v clause q).2 = q.2 ++ given_real v.
Proof.
  unfold real_filter, given_real. destruct v; simpl; [done|].
  by rewrite app_nil_r.
Qed.

Lemma text_filter_count v wrap q :
  forall clause, placeholders clause = 1%nat ->
  placeholders q.1 = length q.2 ->
  placeholders (text_filter v clause wrap q).1
    = length (text_filter v clause wrap q).2.
Proof.
  intros clause Hc Hq. unfold text_filter.
  destruct v as [s|]; simpl; [destruct (truthy s)|]; simpl;
    rewrite ?placeholders_app, ?length_app, ?Hc; simpl; lia.
Qed.

Lemma real_filter_count v q :
  forall clause, placeholders clause = 1%nat ->
  placeholders q.1 = length q.2 ->
  placeholders (real_filter v clause q).1 = length (real_filter v clause q).2.
Proof.
  intros clause Hc Hq. unfold real_filter.
  destruct v; simpl; rewrite ?placeholders_app, ?length_app, ?Hc; simpl; lia.
Qed.

(** X16: whatever filters are given, the statement [list_fines] builds
    has exactly as many [?] as there are parameters, and the parameters
    are the values of the filters that are set, in the order of their
    clauses (article and controller between two [%]), followed by the
    limit and the offset. *)
Theorem list_fines_sql_bindings country authority article min_amount max_amount
    controller type_ date_from date_to limit offset :
  let q := list_fines_sql country authority article min_amount max_amount
                          controller type_ date_from date_to limit offset in
  placeholders q.1 = length q.2 /\
  q.2 = given_text country id ++ given_text authority id
        ++ given_text article like_pattern
        ++ given_text controller like_pattern ++ given_text type_ id
        ++ given_real min_amount ++ given_real max_amount
        ++ given_text date_from id ++ given_text date_to id
        ++ [PInt limit; PInt offset].
Proof.
  intros q. subst q. unfold list_fines_sql. split.
  - cbn [fst snd]. rewrite placeholders_app, length_app.
    f_equal.
    repeat first [ apply text_filter_count; [reflexivity|]
                 | apply real_filter_count; [reflexivity|] ].
    reflexivity.
  - cbn [snd]. repeat (rewrite text_filter_snd || rewrite real_filter_snd).
    cbn [snd].
    rewrite <- !app_assoc. reflexivity.
Qed.

(** X17: the text of the statement depends on which filters are set and
    on nothing else: the values of the filters, the limit and the offset
    go into the parameters only. A text filter counts as set when it is
    a non-empty text, an amount bound when it is not [None]. *)
Theorem list_fines_sql_text
    c1 a1 r1 (lo1 hi1 : option pyfloat) k1 t1 f1 u1 l1 o1
    c2 a2 r2 (lo2 hi2 : option pyfloat) k2 t2 f2 u2 l2 o2 :
  truthy_opt c1 = truthy_opt c2 -> truthy_opt a1 = truthy_opt a2 ->
  truthy_opt r1 = truthy_opt r2 ->
  (is_Some lo1 <-> is_Some lo2) -> (is_Some hi1 <-> is_Some hi2) ->
  truthy_opt k1 = truthy_opt k2 -> truthy_opt t1 = truthy_opt t2 ->
  truthy_opt f1 = truthy_opt f2 -> truthy_opt u1 = truthy_opt u2 ->
  (list_fines_sql c1 a1 r1 lo1 hi1 k1 t1 f1 u1 l1 o1).1
  = (list_fines_sql c2 a2 r2 lo2 hi2 k2 t2 f2 u2 l2 o2).1.
Proof.
  intros Hc Ha Hr Hlo Hhi Hk Ht Hf Hu. unfold list_fines_sql.
  cbn [fst]. repeat (rewrite text_filter_fst || rewrite real_filter_fst).
  cbn [fst].
  rewrite Hc, Ha, Hr, Hk, Ht, Hf, Hu.
  assert (Hopt : forall (x y : option pyfloat),
            (is_Some x <-> is_Some y) ->
            bool_decide (is_Some x) = bool_decide (is_Some y)).
  { intros x y Hxy. by apply bool_decide_ext. }
  by rewrite (Hopt lo1 lo2 Hlo), (Hopt hi1 hi2 Hhi).
Qed.

(** X18: a fine upserted under a key that was not in the database is
    read back by [get_fine] as it was handed over, with the time of
    scraping (and a NaN amount as null); a key that is neither in the
    database nor in the batch gives the 404 answer. *)
Theorem get_fine_after_upsert f ts rows db r k :
  NoDup (map etid rows) -> faulty f (length rows) = false ->
  (r ∈ rows -> db !! etid r = None ->
   get_fine (etid r) (upsert_rows f ts rows db).2 =
     Returned {| j_etid := etid r;
                 j_country := country r;
                 j_authority := authority r;
                 j_decision_date := decision_date r;
                 j_amount_eur := bind_real (amount_eur r);
                 j_controller_or_processor := controller_or_processor r;
                 j_quoted_articles := quoted_articles r;
                 j_type := type_ r;
                 j_summary := summary r;
                 j_source_url := source_url r;
                 j_direct_url := direct_url r;
                 j_scraped_at := Some ts |}) /\
  (k ∉ map etid rows -> db !! k = None ->
   get_fine k (upsert_rows f ts rows db).2 = HTTPException 404 "ETID not found").
Proof.
  intros Hnd Hok. rewrite upsert_rows_outcome, Hok. simpl. split.
  - intros Hr Hnew. unfold get_fine.
    rewrite apply_batch_lookup by done. by rewrite Hnew.
  - intros Hk Hnew. unfold get_fine.
    rewrite apply_batch_other by done. by rewrite Hnew.
Qed.

End ApiFacts.

(** ** The header map, once more *)

Section HeaderBounds.
Context `{Builtins}.

Lemma key_of_label_known lab key :
  key_of_label lab = Some key -> key ∈ map fst keys.
Proof.
  unfold key_of_label.
  destruct (List.find _ keys) as [[k pats]|] eqn:E; [|done].
  intros [= <-]. apply find_some in E as [E _].
  apply list_elem_of_fmap. exists (k, pats). split; [done|].
  by apply list_elem_of_In.
Qed.

Lemma header_loop_bounds labels : forall idx hm k,
  (forall key, key ∈ map fst keys -> is_Some (hm !! key)) ->
  (is_Some (header_loop idx labels hm !! k) <-> is_Some (hm !! k)) /\
  (forall i, header_loop idx labels hm !! k = Some (Some i) ->
     hm !! k = Some (Some i) \/ (idx <= i < idx + length labels)%nat).
Proof.
  induction labels as [|lab labels IH]; intros idx hm k Hdom.
  - simpl. split; [done|]. auto.
  - simpl. destruct (key_of_label lab) as [key|] eqn:Hkey.
    + destruct (IH (S idx) (<[key:=Some idx]> hm) k) as [Hsome Hbound].
      { intros key' Hk'. destruct (decide (key = key')) as [->|Hne].
        - rewrite lookup_insert_eq. by eexists.
        - rewrite lookup_insert_ne by done. by apply Hdom. }
      split.
      * rewrite Hsome. destruct (decide (key = k)) as [->|Hne].
        -- rewrite lookup_insert_eq. split; [|by eexists].
           intros _. apply Hdom. by eapply key_of_label_known.
        -- by rewrite lookup_insert_ne.
      * intros i Hi. destruct (Hbound i Hi) as [Hins | Hr]; [|right; lia].
        destruct (decide (key = k)) as [->|Hne].
        -- rewrite lookup_insert_eq in Hins. injection Hins as <-. right. lia.
        -- rewrite lookup_insert_ne in Hins by done. by left.
    + destruct (IH (S idx) hm k Hdom) as [Hsome Hbound].
      split; [done|]. intros i Hi.
      destruct (Hbound i Hi) as [? | ?]; [by left | right; lia].
Qed.

Lemma header_map_init_unknown k :
  k ∉ map fst keys -> header_map_init !! k = None.
Proof.
  intros Hk. unfold header_map_init. apply not_elem_of_list_to_map.
  intros Hin. apply Hk.
  apply list_elem_of_fmap in Hin as ([k' v] & -> & Hin).
  apply list_elem_of_fmap in Hin as ([k'' pats] & [= -> ->] & Hin).
  apply list_elem_of_fmap. by exists (k'', pats).
Qed.

(** X19: the header map has the eight logical keys and no other,
    whatever the headers are, and an index it gives is the position of
    one of the header cells. *)
Theorem build_header_map_bounds (ths : list pystr) (k : string) :
  (is_Some (build_header_map ths !! k) <-> k ∈ map fst keys) /\
  (forall i, build_header_map ths !! k = Some (Some i) ->
     (i < length ths)%nat).
Proof.
  unfold build_header_map.
  destruct (header_loop_bounds (map header_label ths) 0 header_map_init k)
    as [Hsome Hbound].
  { intros key Hkey. rewrite header_map_init_lookup by done. by eexists. }
  split.
  - rewrite Hsome. split.
    + intros [v Hv]. destruct (decide (k ∈ map fst keys)) as [|Hno]; [done|].
      by rewrite header_map_init_unknown in Hv.
    + intros Hk. rewrite header_map_init_lookup by done. by eexists.
  - intros i Hi. destruct (Hbound i Hi) as [Hinit | Hr].
    + destruct (decide (k ∈ map fst keys)) as [Hk|Hno].
      * by rewrite header_map_init_lookup in Hinit.
      * by rewrite header_map_init_unknown in Hinit.
    + rewrite length_map in Hr. lia.
Qed.

End HeaderBounds.

(** ** The sample table again, and the properties above at work *)

Lemma click_entries_keeps es : forall idx,
  flat_map entry_rows (click_entries idx es) !! idx
  = flat_map entry_rows es !! idx.
Proof.
  induction es as [|e es IH]; intros idx; [done|].
  destruct idx as [|k]; [done|].
  change (click_entries (S k) (e :: es)) with
    (if (S k <? length (entry_rows e))%nat then e :: es
     else e :: click_entries (S k - length (entry_rows e)) es).
  destruct (S k <? length (entry_rows e))%nat eqn:Hlt; [done|].
  apply Nat.ltb_ge in Hlt.
  change (flat_map entry_rows (e :: ?l))
    with (entry_rows e ++ flat_map entry_rows l).
  rewrite !lookup_app_r by lia. apply IH.
Qed.

Lemma sim_click_keeps_row : click_keeps_row (P := site).
Proof. intros idx p. apply click_entries_keeps. Qed.

Lemma upsert_rows_lookup_witness :
  (upsert_rows no_faults (py "t1") [row_first_visit] ∅).2 !! py "DE-001"
  = Some (upserted None row_first_visit (py "t1")).
Proof.
  destruct (upsert_rows_lookup no_faults (py "t1") [row_first_visit] ∅)
    as [Hin _].
  - vm_compute. repeat constructor. intros Hc. by apply elem_of_nil in Hc.
  - reflexivity.
  - apply (Hin row_first_visit). by left.
Defined.

Lemma upsert_rows_again_witness :
  let db1 := (upsert_rows no_faults (py "t1") [row_first_visit] ∅).2 in
  (upsert_rows no_faults (py "t2") [row_first_visit] db1).2 !! py "DE-001"
  = touch (py "t2") <$> db1 !! py "DE-001".
Proof.
  intros db1. subst db1.
  pose proof (upsert_rows_again (py "t1") (py "t2") [row_first_visit] ∅
                (py "DE-001")) as Hagain.
  cbv zeta in Hagain. rewrite Hagain.
  - rewrite bool_decide_true; [reflexivity|]. vm_compute. by left.
  - vm_compute. repeat constructor. intros Hc. by apply elem_of_nil in Hc.
Defined.

Lemma upsert_rows_keeps_enrichment_witness :
  let db1 := (upsert_rows no_faults (py "t1") [row_first_visit] ∅).2 in
  exists old new,
    db1 !! py "DE-001" = Some old /\
    (upsert_rows no_faults (py "t2") [row_second_visit] db1).2 !! py "DE-001"
      = Some new /\
    keeps_enrichment old new.
Proof.
  intros db1. exists (upserted None row_first_visit (py "t1")).
  assert (Hold : db1 !! py "DE-001"
                 = Some (upserted None row_first_visit (py "t1")))
    by (vm_compute; reflexivity).
  destruct (upsert_rows_keeps_enrichment no_faults (py "t2") [row_second_visit]
              db1 (py "DE-001") _ Hold) as (new & Hnew & Hkeep).
  by exists new.
Defined.

Lemma run_keeps_database_witness :
  db (run 3 None site_two_pages {[ py "XX-9" := touch (py "t0")
                                      (excluded row_second_visit (py "t0")) ]}).2
    !! py "XX-9"
  = Some (touch (py "t0") (excluded row_second_visit (py "t0"))).
Proof.
  destruct (run_keeps_database 3 None site_two_pages
              {[ py "XX-9" := touch (py "t0") (excluded row_second_visit (py "t0")) ]}
              (py "XX-9")) as [Hframe _].
  rewrite Hframe.
  - reflexivity.
  - vm_compute. intros Hc.
    repeat (apply elem_of_cons in Hc as [Hc | Hc]; [discriminate|]).
    by apply elem_of_nil in Hc.
Defined.

Lemma run_result_stored_witness :
  exists n, db (run 3 None site_two_pages ∅).2 !! py "DE-001"
            = Some (upserted None row_first_visit (utcnow n)).
Proof.
  assert (E : run 3 None site_two_pages ∅
              = (Ok 1%nat, (run 3 None site_two_pages ∅).2))
    by (vm_compute; reflexivity).
  destruct (run_result_stored 3 None site_two_pages ∅ _ _ E) as [_ Hstored].
  apply (Hstored row_first_visit). vm_compute. by left.
Defined.

Lemma run_within_cap_witness :
  (run 2 (Some 2%Z) site_two_pages ∅).1 <> OutOfFuel /\
  (length (upserts (run 2 (Some 2%Z) site_two_pages ∅).2) <= 2)%nat.
Proof.
  apply (run_within_cap 2%Z site_two_pages ∅).
  - apply sim_click_shows_child.
  - lia.
Defined.

Lemma extract_child_kv_last_wins_witness :
  extract_child_kv
    (Some {| tr_class := Some (py "child"); tr_cells := [];
             tr_titles := [py "Country"; py "Fine [€]"; py " country "];
             tr_datas := [py "Germany"; py "10 €"; py " France "];
             tr_text := []; tr_anchors := [] |}) !! py "country"
  = Some (py "France").
Proof.
  set (tr := {| tr_class := Some (py "child"); tr_cells := [];
                tr_titles := [py "Country"; py "Fine [€]"; py " country "];
                tr_datas := [py "Germany"; py "10 €"; py " France "];
                tr_text := []; tr_anchors := [] |}).
  destruct (extract_child_kv_last_wins tr) as (_ & _ & _ & Hlast).
  apply (Hlast [(py "Country", py "Germany"); (py "Fine [€]", py "10 €")]
               (py " country ") (py " France ") []).
  - reflexivity.
  - discriminate.
  - constructor.
Defined.

Lemma scan_page_ok_witness :
  exists seen' batch p',
    scan_page (build_header_map std_headers) ∅ site_one_page
    = (Ok (seen', batch), p').
Proof.
  apply scan_page_ok.
  - apply sim_click_shows_child.
  - apply sim_click_keeps_row.
Defined.

Lemma advance_header_map_witness :
  let hm := build_header_map std_headers in
  let res := advance hm site_two_pages in
  res.1.2 = build_header_map (headers res.2) /\ rows res.2 <> [].
Proof.
  intros hm res.
  assert (E : advance hm site_two_pages = (true, res.1.2, res.2))
    by (vm_compute; reflexivity).
  apply (advance_header_map hm site_two_pages true _ _ E).
Defined.

Lemma parse_amount_eur_grouped_witness :
  parse_amount_eur (py "€ 1.234.567,89") = Some (FDec false 123456789 (-2)) /\
  parse_amount_eur (py "0,125") = Some (FDec false 125 0).
Proof.
  split.
  - apply (parse_amount_eur_grouped (py "€ 1.234.567,89") (py "1")
             [(46, py "234"); (46, py "567")] (Some (44, py "89"))).
    + vm_compute. repeat split; repeat constructor; discriminate.
    + reflexivity.
  - apply (parse_amount_eur_grouped (py "0,125") (py "0")
             [(44, py "125")] None).
    + vm_compute. repeat split; repeat constructor; discriminate.
    + reflexivity.
Defined.

Lemma list_fines_sql_text_witness :
  (Api.list_fines_sql (Some (py "Germany")) None (Some (py "Art. 5"))
     (Some (FDec false 0 0)) None None (Some []) None None 100 0).1
  = (Api.list_fines_sql (Some (py "x' OR '1'='1")) (Some []) (Some (py "%"))
       (Some (FDec false 5 3)) None (Some []) None None None (-1) 7).1.
Proof.
  apply list_fines_sql_text; try reflexivity; split; intros [x Hx]; try done;
    by eexists.
Defined.

Lemma get_fine_after_upsert_witness :
  Api.get_fine (py "DE-001")
    (upsert_rows no_faults (py "t1") [row_first_visit] ∅).2
  = Api.Returned (Api.row_to_dict (py "DE-001")
                    (excluded row_first_visit (py "t1"))) /\
  Api.get_fine (py "FR-002")
    (upsert_rows no_faults (py "t1") [row_first_visit] ∅).2
  = Api.HTTPException 404 "ETID not found".
Proof.
  destruct (get_fine_after_upsert no_faults (py "t1") [row_first_visit] ∅
              row_first_visit (py "FR-002")) as [Hback Hmiss].
  - vm_compute. repeat constructor. intros Hc. by apply elem_of_nil in Hc.
  - reflexivity.
  - split.
    + apply Hback; [by left | reflexivity].
    + apply Hmiss; [|reflexivity]. vm_compute. intros Hc.
      repeat (apply elem_of_cons in Hc as [Hc | Hc]; [discriminate|]).
      by apply elem_of_nil in Hc.
Defined.
